(** * ULTRABUILD: deployment dispatcher, project generator, pattern scanner
      and monetization ledger

    A shallow embedding of the decision logic of
    - [src/lib/deployers/deployment-engine.ts]  (class [DeploymentEngine]),
    - the core engine                           (class [ULTRABUILDEngine]),
    - [src/lib/healers/self-healer.ts]          (class [SelfHealer]),
    - the monetization engine                   (class [MonetizationEngine]),
    and the properties of these that the specification states.

    Conventions.
    - A JavaScript [Map] is an association list in insertion order.
    - Everything the code reads from outside (the clock, the random
      identifier, an HTTP or process call, the AI completion service, the
      regular-expression engine of the runtime) is an explicit argument.
    - Counters and sizes are [Z]; confidence scores are exact rationals [Q];
      the one division of the code has its [NaN] case written out.
    - The ledger is written over the arithmetic of its numbers: the
      doubles of the program (binary64), or exact rationals where a fact
      is about order only. *)

From Stdlib Require Import ZArith QArith Qminmax Lia Bool Ascii.
From stdpp Require Import base option list strings gmap pretty.
From Stdlib Require Import Lqa.
From Stdlib Require PrimFloat.

Set Default Proof Using "Type".
Local Open Scope Z_scope.

(* ===================================================================== *)
(** ** JavaScript [Map<string, V>]: an insertion-ordered association list *)
(* ===================================================================== *)

Module JSMap.
Section ops.
Context {V : Type}.

(** [new Map()] *)
Definition empty : list (string * V) := [].

(** [m.get(k)]: [None] stands for [undefined]. *)
Fixpoint get (k : string) (m : list (string * V)) : option V :=
  match m with
  | [] => None
  | (k', v) :: m' => if decide (k' = k) then Some v else get k m'
  end.

(** [m.has(k)] *)
Definition has (k : string) (m : list (string * V)) : bool :=
  match get k m with Some _ => true | None => false end.

(** [m.set(k, v)]: an existing key keeps its place and takes the new
    value, a new key goes to the end. *)
Fixpoint set (k : string) (v : V) (m : list (string * V)) : list (string * V) :=
  match m with
  | [] => [(k, v)]
  | (k', v') :: m' =>
      if decide (k' = k) then (k', v) :: m' else (k', v') :: set k v m'
  end.

(** [m.delete(k)] *)
Fixpoint delete (k : string) (m : list (string * V)) : list (string * V) :=
  match m with
  | [] => []
  | (k', v') :: m' =>
      if decide (k' = k) then m' else (k', v') :: delete k m'
  end.

(** [m.size] *)
Definition size (m : list (string * V)) : Z := Z.of_nat (length m).

(** [m.keys()] and [Array.from(m.values())], both in insertion order. *)
Definition keys (m : list (string * V)) : list string := m.*1.
Definition values (m : list (string * V)) : list V := m.*2.

(** [m.keys().next().value]: [None] stands for [undefined]. *)
Definition first_key (m : list (string * V)) : option string := head (keys m).

(** [const firstKey = m.keys().next().value; m.delete(firstKey);]
    deleting [undefined] from a map with string keys removes nothing. *)
Definition delete_first (m : list (string * V)) : list (string * V) :=
  match first_key m with
  | Some k => delete k m
  | None => m
  end.

(** The pattern shared by the three bounded stores:
<<
    store.set(id, value);
    if (store.size > max) {
      const firstKey = store.keys().next().value;
      store.delete(firstKey);
    }
>> *)
Definition put_bounded (max : Z) (k : string) (v : V) (m : list (string * V))
  : list (string * V) :=
  let m1 := set k v m in
  if max <? size m1 then delete_first m1 else m1.

(** Sequential insertion of a list of records, oldest first. *)
Definition put_all (max : Z) (recs m : list (string * V)) : list (string * V) :=
  foldl (fun acc kv => put_bounded max kv.1 kv.2 acc) m recs.
End ops.
End JSMap.

(* ===================================================================== *)
(** ** JavaScript numbers, as far as the code divides them *)
(* ===================================================================== *)

Module JSNum.
(** A finite value, the two infinities, or [NaN]. Finite values are exact
    rationals: rounding is not modelled. *)
Inductive number : Type :=
| Fin (q : Q)
| PInf
| NInf
| NaN.

(** [a / b] for two integer-valued operands. *)
Definition div (a b : Z) : number :=
  if b =? 0 then
    if a =? 0 then NaN else if 0 <? a then PInf else NInf
  else Fin (inject_Z a / inject_Z b).

(** [x * k] for an integer literal [k]. *)
Definition mul (x : number) (k : Z) : number :=
  match x with
  | Fin q => Fin (q * inject_Z k)
  | PInf => if k =? 0 then NaN else if 0 <? k then PInf else NInf
  | NInf => if k =? 0 then NaN else if 0 <? k then NInf else PInf
  | NaN => NaN
  end.

(** Truthiness of a number: [0] and [NaN] are falsy. *)
Definition truthy (x : number) : bool :=
  match x with
  | Fin q => negb (Qeq_bool q 0)
  | PInf | NInf => true
  | NaN => false
  end.

(** [x || y] *)
Definition or (x y : number) : number := if truthy x then x else y.

Definition is_nan (x : number) : bool :=
  match x with NaN => true | _ => false end.
End JSNum.

(* ===================================================================== *)
(** ** [DeploymentEngine] (src/lib/deployers/deployment-engine.ts) *)
(* ===================================================================== *)

Module Deployment.

Record DeploymentConfig : Type := {
  projectName : string;
  projectId : string;
  (** [DeploymentTarget] is a union of four string literals; at run time
      it is a string, and [deploy] has a [default] branch for the rest. *)
  target : string;
  files : list (string * string);
  environment : option (list (string * string));
  buildCommand : option string;
  startCommand : option string;
}.

Record DeploymentResult : Type := {
  success : bool;
  url : option string;
  deploymentId : option string;
  logs : option string;
  timestamp : Z;
  duration : Z;
}.

(** What the external steps of a target procedure do (writing the
    project files, git or Docker through [execSync], the HTTP request):
    one of them throws, or all return. [out_url] and [out_id] are the
    fields the procedure reads from the response: [data.url], [data.id]
    for Vercel, [data.html_url], [data.id] for GitHub, the trimmed
    container id for Docker; AWS reads none. *)
Inductive Outcome : Type :=
| Threw (message : string)
| Returned (out_url out_id : string).

(** What one call of [deploy] reads from outside: the identifier
    [generateDeploymentId()] returns, the [k]-th reading of [Date.now()]
    made by [deploy] and its target procedure (0: [startTime]; 1: the
    [timestamp] of the object a target procedure or the [catch] block
    builds; 2: the reading for [duration]; 3: the final [timestamp]), and
    the outcome of the external steps. *)
Record Env : Type := {
  now : nat → Z;
  new_id : string;
  external : Outcome;
}.

Inductive Event : Type :=
| deployment_started (id project tgt : string)
| deployment_success (id : string) (u : option string) (d : Z)
| deployment_failed (id : string) (l : option string)
| deployment_error (id : string) (message : string).

Record Engine : Type := {
  vercelToken : string;
  githubToken : string;
  deployments : list (string * DeploymentResult);
  emitted : list Event;
}.

Definition maxDeployments : Z := 5000.

(** The values of [DeploymentTarget]. *)
Definition targets : list string := ["vercel"; "github"; "docker"; "aws"].

(** [new DeploymentEngine(vercelToken, githubToken)]; an unset
    environment variable gives the empty string. *)
Definition create (vercel github : string) : Engine :=
  {| vercelToken := vercel; githubToken := github;
     deployments := JSMap.empty; emitted := [] |}.

(** [!token] *)
Definition absent (token : string) : bool := bool_decide (token = "").

Definition failure (l : string) (t : Z) : DeploymentResult :=
  {| success := false; url := None; deploymentId := None;
     logs := Some l; timestamp := t; duration := 0 |}.

Definition deployToVercel (e : Engine) (env : Env) (config : DeploymentConfig)
  : DeploymentResult :=
  if absent (vercelToken e) then failure "Vercel token not configured" (now env 1)
  else
    match external env with
    | Threw msg => failure ("Vercel deployment failed: " +:+ msg) (now env 1)
    | Returned u i =>
        let deploymentUrl := "https://" +:+ u in
        {| success := true; url := Some deploymentUrl; deploymentId := Some i;
           logs := Some ("Deployed to " +:+ deploymentUrl);
           timestamp := now env 1; duration := 0 |}
    end.

Definition deployToGitHub (e : Engine) (env : Env) (config : DeploymentConfig)
  : DeploymentResult :=
  if absent (githubToken e) then failure "GitHub token not configured" (now env 1)
  else
    match external env with
    | Threw msg => failure ("GitHub deployment failed: " +:+ msg) (now env 1)
    | Returned repoUrl i =>
        {| success := true; url := Some repoUrl; deploymentId := Some i;
           logs := Some ("Repository created at " +:+ repoUrl);
           timestamp := now env 1; duration := 0 |}
    end.

Definition deployToDocker (e : Engine) (env : Env) (config : DeploymentConfig)
  : DeploymentResult :=
  match external env with
  | Threw msg => failure ("Docker deployment failed: " +:+ msg) (now env 1)
  | Returned _ containerId =>
      {| success := true; url := Some "http://localhost:3000";
         deploymentId := Some containerId;
         logs := Some ("Docker container running: " +:+ containerId);
         timestamp := now env 1; duration := 0 |}
  end.

Definition deployToAWS (e : Engine) (env : Env) (config : DeploymentConfig)
  : DeploymentResult :=
  match external env with
  | Threw msg => failure ("AWS deployment failed: " +:+ msg) (now env 1)
  | Returned _ _ =>
      {| success := true; url := Some "https://your-app.elasticbeanstalk.com";
         deploymentId := None;
         logs := Some "AWS deployment configured. Use 'eb create' to deploy.";
         timestamp := now env 1; duration := 0 |}
  end.

(** The [switch] of [deploy]: [inl message] is the [Error] its [default]
    branch throws, [inr] the result of a target procedure (none of which
    throws: each has its own [try]/[catch]). *)
Definition dispatch (e : Engine) (env : Env) (config : DeploymentConfig)
  : string + DeploymentResult :=
  if decide (target config = "vercel") then inr (deployToVercel e env config)
  else if decide (target config = "github") then inr (deployToGitHub e env config)
  else if decide (target config = "docker") then inr (deployToDocker e env config)
  else if decide (target config = "aws") then inr (deployToAWS e env config)
  else inl ("Unknown deployment target: " +:+ target config).

Definition emit (ev : Event) (e : Engine) : Engine :=
  {| vercelToken := vercelToken e; githubToken := githubToken e;
     deployments := deployments e; emitted := emitted e ++ [ev] |}.

Definition store (id : string) (r : DeploymentResult) (e : Engine) : Engine :=
  {| vercelToken := vercelToken e; githubToken := githubToken e;
     deployments := JSMap.put_bounded maxDeployments id r (deployments e);
     emitted := emitted e |}.

(** [deploy(config)]: the new engine state and the value the promise
    resolves to. The function has no path on which it rejects. *)
Definition deploy (e : Engine) (env : Env) (config : DeploymentConfig)
  : Engine * DeploymentResult :=
  let startTime := now env 0 in
  let id := new_id env in
  let e := emit (deployment_started id (projectName config) (target config)) e in
  match dispatch e env config with
  | inr result =>
      let result :=
        {| success := success result; url := url result;
           deploymentId := deploymentId result; logs := logs result;
           timestamp := now env 3; duration := now env 2 - startTime |} in
      let e := store id result e in
      let e :=
        if success result
        then emit (deployment_success id (url result) (duration result)) e
        else emit (deployment_failed id (logs result)) e in
      (e, result)
  | inl message =>
      let result :=
        {| success := false; url := None; deploymentId := None;
           logs := Some message;
           timestamp := now env 1; duration := now env 2 - startTime |} in
      (emit (deployment_error id message) e, result)
  end.

(** [getDeployment(id)] and [getAllDeployments()] *)
Definition getDeployment (e : Engine) (id : string) : option DeploymentResult :=
  JSMap.get id (deployments e).
Definition getAllDeployments (e : Engine) : list DeploymentResult :=
  JSMap.values (deployments e).

Record Status : Type := {
  totalDeployments : Z;
  successful : Z;
  failed : Z;
  successRate : JSNum.number;
}.

Definition getStatus (e : Engine) : Status :=
  let successful :=
    Z.of_nat (length (filter (fun d => success d = true) (JSMap.values (deployments e)))) in
  let failed := JSMap.size (deployments e) - successful in
  {| totalDeployments := JSMap.size (deployments e);
     successful := successful;
     failed := failed;
     successRate :=
       JSNum.or (JSNum.mul (JSNum.div successful (JSMap.size (deployments e))) 100)
                (JSNum.Fin 0) |}.

(** [s.includes(sub)] *)
Fixpoint includes (s sub : string) : bool :=
  if String.prefix sub s then true
  else match s with
       | EmptyString => false
       | String _ s' => includes s' sub
       end.

(** A run of [deploy] calls, one environment and configuration each. *)
Definition deploy_all (calls : list (Env * DeploymentConfig)) (e : Engine) : Engine :=
  foldl (fun acc c => (deploy acc c.1 c.2).1) e calls.

(** The records a run of calls leaves, as seen from the first engine. *)
Definition recordsOf (e : Engine) (calls : list (Env * DeploymentConfig))
  : list (string * DeploymentResult) :=
  (fun c => (new_id c.1, (deploy e c.1 c.2).2)) <$> calls.
End Deployment.

(* ===================================================================== *)
(** ** [ULTRABUILDEngine] (the core engine) *)
(* ===================================================================== *)

Module Generator.

Record TechStack : Type := {
  frontend : option (list string);
  backend : option (list string);
  database : option (list string);
  deployment : option (list string);
  tools : option (list string);
  libraries : option (list string);
}.

Record Constraints : Type := {
  budget : option string;
  timeline : option string;
  scalability : option string;
  performance : option string;
}.

Record ProjectRequirement : Type := {
  name : string;
  description : string;
  (** [ProjectType] is a union of string literals; the catalog lookup
      has a fallback for any other string. *)
  type : string;
  features : list string;
  constraints : option Constraints;
}.

(** The analysis object, a [Record<string, any>]. Only [complexity] is
    read back; [None] is a missing field. *)
Record Analysis : Type := {
  complexity : option string;
  analysedFeatures : list string;
  estimatedFiles : Z;
  estimatedLines : Z;
}.

(** [techStackTemplates], in the order of the source. *)
Definition techStackTemplates : list (string * TechStack) := [
  ("game",
   {| frontend := Some ["Phaser 3"; "Three.js"; "Babylon.js"];
      backend := Some ["Node.js"; "Express"];
      database := Some ["Supabase (free)"; "Firebase (free)"];
      deployment := Some ["Vercel"; "GitHub Pages"];
      tools := Some ["Webpack"; "Vite"];
      libraries := Some ["Pixi.js"; "Konva.js"; "PlayCanvas"] |});
  ("website",
   {| frontend := Some ["React 19"; "Next.js 15"; "Vue 3"; "Svelte"];
      backend := Some ["Node.js"; "Express"; "Fastify"];
      database := Some ["Supabase (free)"; "MongoDB (free)"; "PostgreSQL (free)"];
      deployment := Some ["Vercel"; "Netlify"; "GitHub Pages"];
      tools := Some ["Tailwind CSS 4"; "Vite"; "Webpack"];
      libraries := Some ["shadcn/ui"; "Radix UI"; "Headless UI"] |});
  ("app",
   {| frontend := Some ["React Native"; "Flutter"; "Expo"];
      backend := Some ["Node.js"; "Express"; "Firebase"];
      database := Some ["Supabase (free)"; "Firebase (free)"; "Realm"];
      deployment := Some ["Vercel"; "Firebase"; "AWS (free tier)"];
      tools := Some ["Expo"; "Android Studio"; "Xcode"];
      libraries := Some ["React Navigation"; "Redux"; "Zustand"] |});
  ("ai-system",
   {| frontend := Some ["React"; "Next.js"; "Streamlit"];
      backend := Some ["Node.js"; "Python FastAPI"; "Express"];
      database := Some ["Supabase (free)"; "Pinecone (free)"; "Weaviate"];
      deployment := Some ["Vercel"; "Hugging Face Spaces"; "Railway (free)"];
      tools := Some ["LangChain"; "LlamaIndex"; "Transformers.js"];
      libraries := Some ["OpenAI SDK"; "Anthropic SDK"; "Together.ai SDK"] |});
  ("business-software",
   {| frontend := Some ["React"; "Vue"; "Angular"];
      backend := Some ["Node.js"; "Express"; "NestJS"];
      database := Some ["Supabase (free)"; "PostgreSQL (free)"; "MySQL (free)"];
      deployment := Some ["Vercel"; "Railway (free)"; "Render (free)"];
      tools := Some ["Tailwind"; "Vite"; "TypeScript"];
      libraries := Some ["Tanstack Query"; "Zod"; "Prisma (free)"] |});
  ("data-tool",
   {| frontend := Some ["React"; "Plotly.js"; "D3.js"];
      backend := Some ["Node.js"; "Python FastAPI"; "Express"];
      database := Some ["Supabase (free)"; "DuckDB"; "ClickHouse"];
      deployment := Some ["Vercel"; "Hugging Face Spaces"; "Railway"];
      tools := Some ["Pandas"; "NumPy"; "Polars"];
      libraries := Some ["Apache Arrow"; "Recharts"; "Visx"] |});
  ("security-tool",
   {| frontend := Some ["React"; "Vue"];
      backend := Some ["Node.js"; "Express"; "Rust Actix"];
      database := Some ["Supabase (free)"; "PostgreSQL (free)"];
      deployment := Some ["Vercel"; "Railway (free)"; "Render (free)"];
      tools := Some ["Helmet.js"; "OWASP"; "Snyk"];
      libraries := Some ["Crypto-js"; "jsonwebtoken"; "bcrypt"] |});
  ("api",
   {| frontend := None;
      backend := Some ["Node.js"; "Express"; "Fastify"; "Hono"];
      database := Some ["Supabase (free)"; "MongoDB (free)"; "PostgreSQL (free)"];
      deployment := Some ["Vercel"; "Railway (free)"; "Render (free)"];
      tools := Some ["Swagger/OpenAPI"; "Jest"; "Vitest"];
      libraries := Some ["tRPC"; "GraphQL"; "REST"] |});
  ("cli",
   {| frontend := None;
      backend := Some ["Node.js"; "Rust"; "Go"];
      database := None;
      deployment := Some ["npm"; "GitHub Releases"];
      tools := Some ["Commander.js"; "Yargs"; "Clap"];
      libraries := Some ["Chalk"; "Inquirer"; "Table"] |});
  ("other",
   {| frontend := Some ["React"; "Vue"; "Svelte"];
      backend := Some ["Node.js"; "Python"; "Go"];
      database := Some ["Supabase (free)"; "PostgreSQL (free)"];
      deployment := Some ["Vercel"; "Railway (free)"];
      tools := Some ["Vite"; "Webpack"];
      libraries := Some ["TypeScript"; "ESLint"; "Prettier"] |})
].

(** [this.techStackTemplates.other] *)
Definition other : TechStack :=
  {| frontend := Some ["React"; "Vue"; "Svelte"];
     backend := Some ["Node.js"; "Python"; "Go"];
     database := Some ["Supabase (free)"; "PostgreSQL (free)"];
     deployment := Some ["Vercel"; "Railway (free)"];
     tools := Some ["Vite"; "Webpack"];
     libraries := Some ["TypeScript"; "ESLint"; "Prettier"] |}.

(** The names every plain object inherits from [Object.prototype]. A
    read of one of them gives a function, or the prototype itself for
    [__proto__]: a truthy value with none of the fields of a stack. *)
Definition inherited : list string :=
  ["constructor"; "__defineGetter__"; "__defineSetter__"; "hasOwnProperty";
   "__lookupGetter__"; "__lookupSetter__"; "isPrototypeOf";
   "propertyIsEnumerable"; "toString"; "valueOf"; "__proto__";
   "toLocaleString"].

Definition noFields : TechStack :=
  {| frontend := None; backend := None; database := None;
     deployment := None; tools := None; libraries := None |}.

(** [this.techStackTemplates[projectType]]: an own property of the
    object literal, else an inherited member, else [undefined]. *)
Definition template (projectType : string) : option TechStack :=
  match JSMap.get projectType techStackTemplates with
  | Some entry => Some entry
  | None => if bool_decide (projectType ∈ inherited) then Some noFields else None
  end.


(** [estimateComplexity(requirement)] *)
Definition estimateComplexity (requirement : ProjectRequirement) : string :=
  let featureCount := Z.of_nat (length (features requirement)) in
  if featureCount <=? 3 then "simple"
  else if featureCount <=? 8 then "medium"
  else if featureCount <=? 15 then "complex"
  else "enterprise".

(** The request to the analysis service: it throws (network error,
    timeout after 30 s, error status) or returns [response.data], here a
    body that is an object with the fields of an analysis, each of them
    optional where the code reads it with a default. A body that is no
    object ([null]) is not in this type. *)
Inductive ApiOutcome : Type :=
| ApiThrew
| ApiData (data : Analysis).

(** The constant object [generateDeploymentConfig] returns. *)
Record DeploymentSettings : Type := {
  platform : string;
  buildCommand : string;
  startCommand : string;
  environment : list (string * string);
  regions : list string;
  autoScale : bool;
  monitoring : bool;
  cost : Z;
}.

Record GeneratedProject : Type := {
  p_id : string;
  p_name : string;
  p_type : string;
  techStack : TechStack;
  files : list (string * string);
  deploymentConfig : DeploymentSettings;
  estimatedBuildTime : Z;
  estimatedCost : Z;
  confidence : Q;
  timestamp : Z;
}.

Inductive Event : Type :=
| generation_started (id nm : string)
| analysis_complete (id : string) (analysis : Analysis)
| tech_stack_selected (id : string) (stack : TechStack)
| files_generated (id : string) (fileCount : Z)
| deployment_config_generated (id : string)
| generation_complete (id : string).

Record Engine : Type := {
  manusApiUrl : string;
  manusApiKey : string;
  generatedProjects : list (string * GeneratedProject);
  emitted : list Event;
}.

Definition maxProjects : Z := 10000.

Definition create (apiUrl apiKey : string) : Engine :=
  {| manusApiUrl := apiUrl; manusApiKey := apiKey;
     generatedProjects := JSMap.empty; emitted := [] |}.

(** What one call of [generateProject] reads from outside: the identifier
    [generateProjectId()] returns, the readings of [Date.now()]
    (0: [startTime]; 1: for [buildTime]; 2: [timestamp]) and the outcome
    of the request to the analysis service. *)
Record Env : Type := {
  now : nat → Z;
  new_id : string;
  api : ApiOutcome;
}.

(** Truthiness of a string. *)
Definition truthy (s : string) : bool := negb (bool_decide (s = "")).

(** [analyzeRequirement(requirement)]: with both credentials the answer
    of the service, or the constants of the [catch] block when the
    request throws; without them the local analysis. *)
Definition analyzeRequirement (e : Engine) (outcome : ApiOutcome)
    (requirement : ProjectRequirement) : Analysis :=
  if truthy (manusApiUrl e) && truthy (manusApiKey e) then
    match outcome with
    | ApiData data => data
    | ApiThrew =>
        {| complexity := Some "medium";
           analysedFeatures := features requirement;
           estimatedFiles := 20;
           estimatedLines := 5000 |}
    end
  else
    {| complexity := Some (estimateComplexity requirement);
       analysedFeatures := features requirement;
       estimatedFiles := Z.of_nat (length (features requirement)) * 3 + 10;
       estimatedLines := Z.of_nat (length (features requirement)) * 500 + 1000 |}.

(** [analysis.complexity || 'medium'] *)
Definition complexityOf (analysis : Analysis) : string :=
  match complexity analysis with
  | Some c => if truthy c then c else "medium"
  | None => "medium"
  end.

(** [selectTechStack(projectType, analysis)]; [a?.slice(0, n)] is
    [take n <$> a]. *)
Definition selectTechStack (projectType : string) (analysis : Analysis) : TechStack :=
  let baseStack := default other (template projectType) in
  let complexity := complexityOf analysis in
  if decide (complexity = "simple") then
    {| frontend := take 1 <$> frontend baseStack;
       backend := take 1 <$> backend baseStack;
       database := take 1 <$> database baseStack;
       deployment := take 1 <$> deployment baseStack;
       tools := take 2 <$> tools baseStack;
       libraries := None |}
  else if decide (complexity = "enterprise") then
    {| frontend := frontend baseStack;
       backend := backend baseStack;
       database := database baseStack;
       deployment := deployment baseStack;
       tools := tools baseStack;
       libraries := libraries baseStack |}
  else baseStack.

Definition generateDeploymentConfig (projectType : string) (stack : TechStack)
  : DeploymentSettings :=
  {| platform := "vercel";
     buildCommand := "npm run build";
     startCommand := "npm start";
     environment := [("NODE_ENV", "production")];
     regions := ["us-east-1"; "eu-west-1"];
     autoScale := true;
     monitoring := true;
     cost := 0 |}.

(** [calculateConfidence(analysis, files)] *)
Definition calculateConfidence (analysis : Analysis) (fs : list (string * string)) : Q :=
  let fileCount := JSMap.size fs in
  let c := (7 # 10)%Q in
  let c := if 10 <? fileCount then (c + (15 # 100))%Q else c in
  let c := if JSMap.has "README.md" fs then (c + (5 # 100))%Q else c in
  let c := if JSMap.has "package.json" fs then (c + (5 # 100))%Q else c in
  Qmin 1 c.

Definition emit (ev : Event) (e : Engine) : Engine :=
  {| manusApiUrl := manusApiUrl e; manusApiKey := manusApiKey e;
     generatedProjects := generatedProjects e; emitted := emitted e ++ [ev] |}.

Definition store (id : string) (project : GeneratedProject) (e : Engine) : Engine :=
  {| manusApiUrl := manusApiUrl e; manusApiKey := manusApiKey e;
     generatedProjects :=
       JSMap.put_bounded maxProjects id project (generatedProjects e);
     emitted := emitted e |}.

(** The complexity [generateProject] hands to [selectTechStack]. *)
Definition complexityUsed (e : Engine) (env : Env)
    (requirement : ProjectRequirement) : string :=
  complexityOf (analyzeRequirement e (api env) requirement).

Section files.
(** The text of the file written at a path: the template functions
    ([generatePackageJson], [generateReadme], ...) build strings and
    are not modelled. *)
Variable content : ProjectRequirement → TechStack → string → string.

Definition write (requirement : ProjectRequirement) (stack : TechStack)
    (path : string) (fs : list (string * string)) : list (string * string) :=
  JSMap.set path (content requirement stack path) fs.

(** [generateSourceFiles]: the paths chosen by the [switch]. *)
Definition sourcePaths (projectType : string) : list string :=
  if decide (projectType = "game") then ["src/game.ts"; "src/scenes/MainScene.ts"]
  else if decide (projectType = "website") then ["src/App.tsx"; "src/pages/Home.tsx"]
  else if decide (projectType = "app") then ["src/App.tsx"; "src/screens/HomeScreen.tsx"]
  else if decide (projectType = "api") then ["src/server.ts"; "src/routes/index.ts"]
  else ["src/index.ts"].

Definition generateProjectFiles (requirement : ProjectRequirement)
    (stack : TechStack) (analysis : Analysis) : list (string * string) :=
  foldl (fun fs path => write requirement stack path fs) JSMap.empty
        (["package.json"; "README.md"; "tsconfig.json"; ".gitignore"]
           ++ sourcePaths (type requirement)).

(** [generateProject(requirement)]. No step of the [try] block throws
    in this model, so the rethrowing [catch] is not reached. *)
Definition generateProject (e : Engine) (env : Env)
    (requirement : ProjectRequirement) : Engine * GeneratedProject :=
  let projectId := new_id env in
  let startTime := now env 0 in
  let e := emit (generation_started projectId (name requirement)) e in
  let analysis := analyzeRequirement e (api env) requirement in
  let e := emit (analysis_complete projectId analysis) e in
  let stack := selectTechStack (type requirement) analysis in
  let e := emit (tech_stack_selected projectId stack) e in
  let fs := generateProjectFiles requirement stack analysis in
  let e := emit (files_generated projectId (JSMap.size fs)) e in
  let config := generateDeploymentConfig (type requirement) stack in
  let e := emit (deployment_config_generated projectId) e in
  let buildTime := now env 1 - startTime in
  let project :=
    {| p_id := projectId; p_name := name requirement;
       p_type := type requirement; techStack := stack; files := fs;
       deploymentConfig := config; estimatedBuildTime := buildTime;
       estimatedCost := 0;
       confidence := calculateConfidence analysis fs;
       timestamp := now env 2 |} in
  let e := store projectId project e in
  (emit (generation_complete projectId) e, project).

End files.
End Generator.

(* ===================================================================== *)
(** ** Regular expressions of the scanner *)
(* ===================================================================== *)

Module Regex.
(** The patterns of the scanner are sequences of single-character
    atoms, each taken once or under a greedy [*] or [+], and the
    assertion [\b]. *)
Inductive atom : Type :=
| Chr (c : ascii)            (* a literal character *)
| Space                      (* \s *)
| Word                       (* \w *)
| OneOf (cs : list ascii)    (* [...] *)
| NoneOf (cs : list ascii).  (* [^...] *)

Inductive quantifier : Type := Once | Star | Plus.

Inductive item : Type :=
| Atom (a : atom) (q : quantifier)
| Boundary.                  (* \b *)

Definition regex : Type := list item.

(** A run of literal characters. *)
Fixpoint lit (s : string) : regex :=
  match s with
  | EmptyString => []
  | String c s' => Atom (Chr c) Once :: lit s'
  end.

Definition dquote : ascii := "034"%char.
Definition squote : ascii := "039"%char.

(** A reference implementation of [String.prototype.match] for these
    patterns with the [g] flag, on strings of 8-bit code units. *)
Definition is_space (c : ascii) : bool :=
  let n := N_of_ascii c in
  ((9 <=? n) && (n <=? 13) || (n =? 32) || (n =? 160))%N.

Definition is_word (c : ascii) : bool :=
  let n := N_of_ascii c in
  ((48 <=? n) && (n <=? 57) || (65 <=? n) && (n <=? 90)
   || (97 <=? n) && (n <=? 122) || (n =? 95))%N.

Definition accepts (a : atom) (c : ascii) : bool :=
  match a with
  | Chr c' => bool_decide (c' = c)
  | Space => is_space c
  | Word => is_word c
  | OneOf cs => bool_decide (c ∈ cs)
  | NoneOf cs => negb (bool_decide (c ∈ cs))
  end.

Definition word_before (prev : option ascii) : bool :=
  match prev with Some c => is_word c | None => false end.
Definition word_after (s : string) : bool :=
  match s with String c _ => is_word c | EmptyString => false end.

(** Greedy repetition of [a], then the continuation [k]; gives back one
    character at a time while [k] fails. *)
Fixpoint star (a : atom) (k : option ascii → string → option string)
    (prev : option ascii) (s : string) : option string :=
  match s with
  | String c s' =>
      if accepts a c then
        match star a k (Some c) s' with
        | Some m => Some (String c m)
        | None => k prev s
        end
      else k prev s
  | EmptyString => k prev s
  end.

(** The text the pattern matches at the start of [s], if any; [prev] is
    the character before. *)
Fixpoint match_here (p : regex) (prev : option ascii) (s : string) : option string :=
  match p with
  | [] => Some EmptyString
  | Boundary :: p' =>
      if xorb (word_before prev) (word_after s) then match_here p' prev s else None
  | Atom a Once :: p' =>
      match s with
      | String c s' =>
          if accepts a c then String c <$> match_here p' (Some c) s' else None
      | EmptyString => None
      end
  | Atom a Star :: p' => star a (match_here p') prev s
  | Atom a Plus :: p' =>
      match s with
      | String c s' =>
          if accepts a c then String c <$> star a (match_here p') (Some c) s' else None
      | EmptyString => None
      end
  end.

(** What is left of [s] after the first [n] characters, and the last
    character passed. *)
Fixpoint skip (n : nat) (prev : option ascii) (s : string) : option ascii * string :=
  match n, s with
  | S n', String c s' => skip n' (Some c) s'
  | _, _ => (prev, s)
  end.

(** The leftmost match in [s]: the text, and where the search goes on. *)
Fixpoint search (p : regex) (prev : option ascii) (s : string)
  : option (string * (option ascii * string)) :=
  match match_here p prev s with
  | Some m =>
      Some (m, match String.length m with
               | O => skip 1 prev s
               | n => skip n prev s
               end)
  | None =>
      match s with
      | String c s' => search p (Some c) s'
      | EmptyString => None
      end
  end.

Fixpoint match_all (fuel : nat) (p : regex) (prev : option ascii) (s : string)
  : list string :=
  match fuel with
  | O => []
  | S fuel' =>
      match search p prev s with
      | Some (m, (prev', rest)) =>
          m :: (if bool_decide (m = EmptyString) && bool_decide (s = EmptyString)
                then [] else match_all fuel' p prev' rest)
      | None => []
      end
  end.

(** [code.match(regex)] with the [g] flag: [None] is [null], otherwise
    the first match and the later ones. *)
Definition exec (p : regex) (code : string) : option (string * list string) :=
  match match_all (S (String.length code)) p None code with
  | [] => None
  | m :: ms => Some (m, ms)
  end.
End Regex.

(* ===================================================================== *)
(** ** [SelfHealer] (src/lib/healers/self-healer.ts) *)
(* ===================================================================== *)

Module Healer.
Import Regex.

Inductive ErrorType : Type :=
| syntax | type | logic | performance | security | unknown.

Inductive Severity : Type := critical | high | medium | low.

#[global] Instance ErrorType_eq_dec : EqDecision ErrorType.
Proof. solve_decision. Defined.
#[global] Instance Severity_eq_dec : EqDecision Severity.
Proof. solve_decision. Defined.

Record CodeError : Type := {
  kind : ErrorType;          (* the field [type] *)
  severity : Severity;
  line : option Z;
  column : option Z;
  message : string;
  code : string;
  suggestion : option string;
}.

Record HealingResult : Type := {
  original : string;
  healed : string;
  errorsFound : list CodeError;
  errorsFix : Z;
  confidence : Q;
  timestamp : Z;
}.

(** An entry of a pattern table: [{ regex, message }]. *)
Record Pattern : Type := { regex : Regex.regex; text : string }.

Definition spaces : Regex.regex := [Atom Space Star].
Definition spaces1 : Regex.regex := [Atom Space Plus].
Definition word1 : Regex.regex := [Atom Word Plus].
Definition no (c : ascii) : Regex.regex := [Atom (NoneOf [c]) Star].

Definition syntaxPatterns : list Pattern := [
  (* /\{[^}]*\{[^}]*\}[^}]*\}/g *)
  {| regex := lit "{" ++ no "}" ++ lit "{" ++ no "}" ++ lit "}" ++ no "}" ++ lit "}";
     text := "Nested braces detected" |};
  (* /\([^)]*\([^)]*\)[^)]*\)/g *)
  {| regex := lit "(" ++ no ")" ++ lit "(" ++ no ")" ++ lit ")" ++ no ")" ++ lit ")";
     text := "Nested parentheses detected" |};
  (* /const\s+\w+\s*=/g *)
  {| regex := lit "const" ++ spaces1 ++ word1 ++ spaces ++ lit "=";
     text := "Missing semicolon" |};
  (* /function\s+\w+\s*\(\s*\)\s*\{/g *)
  {| regex := lit "function" ++ spaces1 ++ word1 ++ spaces ++ lit "(" ++ spaces
                ++ lit ")" ++ spaces ++ lit "{";
     text := "Empty function parameters" |}
].

Definition typePatterns : list Pattern := [
  (* /:\s*any\b/g *)
  {| regex := lit ":" ++ spaces ++ lit "any" ++ [Boundary];
     text := "Use of " +:+ String dquote "any" +:+ String dquote " type detected" |};
  (* /\w+\s*\|\s*undefined/g *)
  {| regex := word1 ++ spaces ++ lit "|" ++ spaces ++ lit "undefined";
     text := "Potentially undefined value" |};
  (* /as\s+\w+/g *)
  {| regex := lit "as" ++ spaces1 ++ word1;
     text := "Type assertion used - consider better typing" |}
].

Definition logicPatterns : list Pattern := [
  (* /if\s*\(\s*true\s*\)/g *)
  {| regex := lit "if" ++ spaces ++ lit "(" ++ spaces ++ lit "true" ++ spaces ++ lit ")";
     text := "Condition always true" |};
  (* /if\s*\(\s*false\s*\)/g *)
  {| regex := lit "if" ++ spaces ++ lit "(" ++ spaces ++ lit "false" ++ spaces ++ lit ")";
     text := "Condition always false" |};
  (* /while\s*\(\s*true\s*\)/g *)
  {| regex := lit "while" ++ spaces ++ lit "(" ++ spaces ++ lit "true" ++ spaces ++ lit ")";
     text := "Infinite loop detected" |};
  (* /==\s*null/g *)
  {| regex := lit "==" ++ spaces ++ lit "null";
     text := "Use === instead of ==" |};
  (* /var\s+\w+/g *)
  {| regex := lit "var" ++ spaces1 ++ word1;
     text := "Use const/let instead of var" |}
].

Definition securityPatterns : list Pattern := [
  (* /eval\s*\(/g *)
  {| regex := lit "eval" ++ spaces ++ lit "(";
     text := "eval() is dangerous" |};
  (* /innerHTML\s*=/g *)
  {| regex := lit "innerHTML" ++ spaces ++ lit "=";
     text := "innerHTML can cause XSS" |};
  (* /dangerouslySetInnerHTML/g *)
  {| regex := lit "dangerouslySetInnerHTML";
     text := "dangerouslySetInnerHTML can cause XSS" |};
  (* /process\.env\.\w+/g *)
  {| regex := lit "process.env." ++ word1;
     text := "Ensure env vars are not exposed" |};
  (* /password\s*=\s*[QQ][^QQ]*[QQ]/g, where QQ stands for the two
     quote characters *)
  {| regex := lit "password" ++ spaces ++ lit "=" ++ spaces
                ++ [Atom (OneOf [squote; dquote]) Once;
                    Atom (NoneOf [squote; dquote]) Star;
                    Atom (OneOf [squote; dquote]) Once];
     text := "Hardcoded password detected" |}
].

Definition performancePatterns : list Pattern := [
  (* /\.map\s*\(\s*\)\s*\.filter/g *)
  {| regex := lit ".map" ++ spaces ++ lit "(" ++ spaces ++ lit ")" ++ spaces
                ++ lit ".filter";
     text := "Chain map and filter for better performance" |};
  (* /for\s*\(\s*let\s+\w+\s*=\s*0/g *)
  {| regex := lit "for" ++ spaces ++ lit "(" ++ spaces ++ lit "let" ++ spaces1
                ++ word1 ++ spaces ++ lit "=" ++ spaces ++ lit "0";
     text := "Consider using forEach or map" |};
  (* /JSON\.stringify\s*\(/g *)
  {| regex := lit "JSON.stringify" ++ spaces ++ lit "(";
     text := "JSON.stringify can be slow on large objects" |};
  (* /setTimeout\s*\(\s*\w+\s*,\s*0\s*\)/g *)
  {| regex := lit "setTimeout" ++ spaces ++ lit "(" ++ spaces ++ word1 ++ spaces
                ++ lit "," ++ spaces ++ lit "0" ++ spaces ++ lit ")";
     text := "setTimeout with 0ms is inefficient" |}
].

(** The completion service: the request throws, or returns an object
    whose [response] may be missing. *)
Inductive AIOutcome : Type :=
| AIThrew
| AIResponse (response : option string).

(** What one call of [healCode] reads from outside: the identifier
    [generateId()] returns, the readings of [Date.now()] (0: [startTime];
    1: [timestamp]), and the completion service, [ai k prompt] being the
    outcome of the [k]-th request of the call. *)
Record Env : Type := {
  now : nat → Z;
  new_id : string;
  ai : nat → string → AIOutcome;
}.

Inductive Event : Type :=
| healing_started (id : string)
| scan_complete (id : string) (errorCount : Z)
| healing_complete (id : string) (fixedCount : Z).

Record State : Type := {
  healingHistory : list (string * list HealingResult);
  emitted : list Event;
}.

Definition maxHistory : Z := 10000.

Definition create : State := {| healingHistory := JSMap.empty; emitted := [] |}.

Definition emit (ev : Event) (h : State) : State :=
  {| healingHistory := healingHistory h; emitted := emitted h ++ [ev] |}.

(** The storing step of [healCode]:
<<
    if (!history.has(id)) history.set(id, []);
    history.get(id)!.push(result);
    if (history.size > max) { delete the first key }
>>
    [push] changes the array in place, so the key keeps its position. *)
Definition record (max : Z) (id : string) (result : HealingResult)
    (history : list (string * list HealingResult))
  : list (string * list HealingResult) :=
  let h1 := if JSMap.has id history then history else JSMap.set id [] history in
  let h2 :=
    match JSMap.get id h1 with
    | Some results => JSMap.set id (results ++ [result]) h1
    | None => h1
    end in
  if max <? JSMap.size h2 then JSMap.delete_first h2 else h2.

Definition store (id : string) (result : HealingResult) (h : State) : State :=
  {| healingHistory := record maxHistory id result (healingHistory h);
     emitted := emitted h |}.

Definition typeName (t : ErrorType) : string :=
  match t with
  | syntax => "syntax" | type => "type" | logic => "logic"
  | performance => "performance" | security => "security" | unknown => "unknown"
  end.

Definition nl : string := String "010" EmptyString.

(** The prompt of [fixError]. *)
Definition prompt (code : string) (error : CodeError) (language : string) : string :=
  nl +:+ "Fix this " +:+ typeName (kind error) +:+ " error in " +:+ language
     +:+ " code:" +:+ nl +:+ nl
     +:+ "Error: " +:+ message error +:+ nl
     +:+ "Code: " +:+ Healer.code error +:+ nl +:+ nl
     +:+ "Original code:" +:+ nl
     +:+ "```" +:+ language +:+ nl
     +:+ code +:+ nl
     +:+ "```" +:+ nl +:+ nl
     +:+ "Provide ONLY the corrected code, no explanations." +:+ nl.

(** [fixError(code, error, language)]: [None] when the request throws,
    otherwise [result.response || code]. *)
Definition fixError (env : Env) (k : nat) (code : string) (error : CodeError)
    (language : string) : option string :=
  match ai env k (prompt code error language) with
  | AIThrew => None
  | AIResponse (Some response) =>
      Some (if bool_decide (response = "") then code else response)
  | AIResponse None => Some code
  end.

(** One turn of the loop over the findings: the current text, the
    number of fixes, and the number of requests made. *)
Definition healStep (env : Env) (language : string)
    (acc : string * Z * nat) (error : CodeError) : string * Z * nat :=
  let '(healed, fixedCount, k) := acc in
  match fixError env k healed error language with
  | Some fixedCode =>
      if decide (fixedCode = healed) then (healed, fixedCount, S k)
      else (fixedCode, fixedCount + 1, S k)
  | None => (healed, fixedCount, S k)
  end.

(** The object a scanning method pushes for a pattern that matched:
    [{ type, severity, message: pattern.message, code: matches[0] }]. *)
Definition finding (t : ErrorType) (sev : Severity) (pattern : Pattern)
    (first : string) : CodeError :=
  {| kind := t; severity := sev; line := None; column := None;
     message := text pattern; code := first; suggestion := None |}.

(** The five tables, each with the category and the severity its
    scanning method gives, in the order [scanCode] runs them. *)
Definition groups : list (ErrorType * Severity * list Pattern) :=
  [(syntax, high, syntaxPatterns);
   (type, medium, typePatterns);
   (logic, high, logicPatterns);
   (security, critical, securityPatterns);
   (performance, low, performancePatterns)].

(** A table entry together with the category and severity of its table. *)
Definition rulesOf (t : ErrorType) (sev : Severity) (patterns : list Pattern)
  : list (ErrorType * Severity * Pattern) :=
  (fun p => (t, sev, p)) <$> patterns.

(** The entries a scan with the given language goes through. *)
Definition rulesFor (language : string) : list (ErrorType * Severity * Pattern) :=
  rulesOf syntax high syntaxPatterns
    ++ (if decide (language = "typescript")
        then rulesOf type medium typePatterns else [])
    ++ rulesOf logic high logicPatterns
    ++ rulesOf security critical securityPatterns
    ++ rulesOf performance low performancePatterns.

(** A run of the storing step, oldest record first. *)
Definition record_all (max : Z) (results : list (string * HealingResult))
    (history : list (string * list HealingResult))
  : list (string * list HealingResult) :=
  foldl (fun acc kr => record max kr.1 kr.2 acc) history results.

(** One array per id: the records as the history holds them. *)
Definition single (kr : string * HealingResult) : string * list HealingResult :=
  (kr.1, [kr.2]).

Section scanner.
(** [code.match(regex)] of the runtime, for a pattern with the [g]
    flag: [null], or the non-empty array of the matches in order.
    [Regex.exec] is one implementation. *)
Variable regexMatch : Regex.regex → string → option (string * list string).

(** The loop the five scanning methods share:
<<
    for (const pattern of patterns) {
      const matches = code.match(pattern.regex);
      if (matches) errors.push({ type, severity, message, code: matches[0] });
    }
>> *)
Definition scanPatterns (t : ErrorType) (sev : Severity)
    (patterns : list Pattern) (code : string) : list CodeError :=
  foldl (fun errors pattern =>
           match regexMatch (regex pattern) code with
           | Some (first, _) => errors ++ [finding t sev pattern first]
           | None => errors
           end) [] patterns.

Definition scanSyntaxErrors (code language : string) : list CodeError :=
  scanPatterns syntax high syntaxPatterns code.

Definition scanTypeErrors (code language : string) : list CodeError :=
  if decide (language = "typescript")
  then scanPatterns type medium typePatterns code
  else [].

Definition scanLogicErrors (code language : string) : list CodeError :=
  scanPatterns logic high logicPatterns code.

Definition scanSecurityIssues (code language : string) : list CodeError :=
  scanPatterns security critical securityPatterns code.

Definition scanPerformanceIssues (code language : string) : list CodeError :=
  scanPatterns performance low performancePatterns code.

(** [scanCode(code, language)]; the caller passes ["typescript"] for
    an omitted language. *)
Definition scanCode (code language : string) : list CodeError :=
  scanSyntaxErrors code language
    ++ scanTypeErrors code language
    ++ scanLogicErrors code language
    ++ scanSecurityIssues code language
    ++ scanPerformanceIssues code language.

(** [validateCode(code, language)] *)
Definition validateCode (code language : string) : Q :=
  let errors := scanCode code language in
  if decide (length errors = 0%nat) then 1%Q
  else Qmax 0 (1 - inject_Z (Z.of_nat (length errors)) * (1 # 10)).

(** The finding a table entry gives on [code], if its pattern matches. *)
Definition emitRule (code : string) (rule : ErrorType * Severity * Pattern)
  : option CodeError :=
  match regexMatch (regex rule.2) code with
  | Some (first, _) => Some (finding rule.1.1 rule.1.2 rule.2 first)
  | None => None
  end.

(** [healCode(code, language)]. Nothing in the [try] block throws
    (a failing request is caught inside the loop), so the rethrowing
    [catch] is not reached. *)
Definition healCode (h : State) (env : Env) (code language : string)
  : State * HealingResult :=
  let healingId := new_id env in
  let h := emit (healing_started healingId) h in
  let errors := scanCode code language in
  let h := emit (scan_complete healingId (Z.of_nat (length errors))) h in
  if decide (length errors = 0%nat) then
    (h, {| original := code; healed := code; errorsFound := [];
           errorsFix := 0; confidence := 1; timestamp := now env 1 |})
  else
    let '(healed, fixedCount, _) :=
      foldl (healStep env language) (code, 0, 0%nat) errors in
    let h := emit (healing_complete healingId fixedCount) h in
    let confidence := validateCode healed language in
    let result :=
      {| original := code; healed := healed; errorsFound := errors;
         errorsFix := fixedCount; confidence := confidence;
         timestamp := now env 1 |} in
    (store healingId result h, result).
End scanner.
End Healer.

(* ===================================================================== *)
(** ** [MonetizationEngine] *)
(* ===================================================================== *)

Module Monetization.
Import PrimFloat.

(** The arithmetic the ledger uses on the numbers of the program: [0],
    [1] and [+]. The program computes in binary64, the instance
    [double]; [exact] is the same arithmetic without rounding. *)
Class Number (N : Type) : Type := { zero : N; one : N; plus : N → N → N }.

#[global] Instance double : Number float :=
  {| zero := 0%float; one := 1%float; plus := PrimFloat.add |}.

#[global] Instance exact : Number Q :=
  {| zero := 0%Q; one := 1%Q; plus := Qplus |}.

Record Template (N : Type) : Type := {
  id : string;
  name : string;
  description : string;
  price : N;
  creator : string;
  downloads : N;
  rating : N;
  code : string;
}.
Arguments Build_Template {N}.
Arguments id {N}.
Arguments name {N}.
Arguments description {N}.
Arguments price {N}.
Arguments creator {N}.
Arguments downloads {N}.
Arguments rating {N}.
Arguments code {N}.

Inductive Event (N : Type) : Type :=
| template_published (id nm : string)
| template_purchased (templateId buyerId : string) (p : N).
Arguments template_published {N}.
Arguments template_purchased {N}.

(** [templates] holds references: [publishTemplate] stores the object
    it is given and [purchaseTemplate] updates that object in place.
    [objects] is the heap of [Template] objects, addressed by [nat]. *)
Record Engine (N : Type) : Type := {
  objects : gmap nat (Template N);
  templates : list (string * nat);
  revenue : N;
  emitted : list (Event N);
}.
Arguments Build_Engine {N}.
Arguments objects {N}.
Arguments templates {N}.
Arguments revenue {N}.
Arguments emitted {N}.

Section engine.
Context {N : Type} `{!Number N}.

Definition create : Engine N :=
  {| objects := ∅; templates := JSMap.empty; revenue := zero; emitted := [] |}.

(** A caller's [{ ... }]: a new object. *)
Definition alloc (t : Template N) (e : Engine N) : Engine N * nat :=
  let r := fresh (dom (objects e)) in
  ({| objects := <[r := t]> (objects e); templates := templates e;
      revenue := revenue e; emitted := emitted e |}, r).

(** [publishTemplate(template)], for a reference to a live object. *)
Definition publishTemplate (e : Engine N) (template : nat) : Engine N * bool :=
  match objects e !! template with
  | Some t =>
      ({| objects := objects e;
          templates := JSMap.set (id t) template (templates e);
          revenue := revenue e;
          emitted := emitted e ++ [template_published (id t) (name t)] |}, true)
  | None => (e, true)
  end.

(** [this.templates.get(templateId)], dereferenced. *)
Definition lookup (e : Engine N) (templateId : string) : option (Template N) :=
  r ← JSMap.get templateId (templates e); objects e !! r.

(** [template.downloads++] *)
Definition purchased (t : Template N) : Template N :=
  {| id := id t; name := name t; description := description t;
     price := price t; creator := creator t;
     downloads := plus (downloads t) one;
     rating := rating t; code := code t |}.

(** [purchaseTemplate(templateId, buyerId)] *)
Definition purchaseTemplate (e : Engine N) (templateId buyerId : string)
  : Engine N * bool :=
  match JSMap.get templateId (templates e) with
  | None => (e, false)
  | Some r =>
      match objects e !! r with
      | None => (e, false)
      | Some template =>
          ({| objects := <[r := purchased template]> (objects e);
              templates := templates e;
              revenue := plus (revenue e) (price template);
              emitted := emitted e
                ++ [template_purchased templateId buyerId (price template)] |},
           true)
      end
  end.

Definition getRevenue (e : Engine N) : N := revenue e.

Definition getTemplates (e : Engine N) : list (Template N) :=
  omap (fun r => objects e !! r) (JSMap.values (templates e)).

(** Every stored reference points to a live object. *)
Definition wf (e : Engine N) : Prop :=
  ∀ k r, JSMap.get k (templates e) = Some r → is_Some (objects e !! r).
End engine.
End Monetization.


(* ===================================================================== *)
(** ** Concrete inputs used by the examples *)
(* ===================================================================== *)

Module Samples.
Definition clock (k : nat) : Z := 1700000000000 + Z.of_nat k.

(** Deployment *)
Definition config (tgt : string) : Deployment.DeploymentConfig :=
  {| Deployment.projectName := "demo"; Deployment.projectId := "proj-1";
     Deployment.target := tgt;
     Deployment.files := [("index.js", "console.log(1)")];
     Deployment.environment := None; Deployment.buildCommand := None;
     Deployment.startCommand := None |}.

Definition deployEnv (id : string) (o : Deployment.Outcome) : Deployment.Env :=
  {| Deployment.now := clock; Deployment.new_id := id; Deployment.external := o |}.

Definition done : Deployment.Outcome :=
  Deployment.Returned "demo.vercel.app" "dpl_1".

(** An engine without tokens and one with both. *)
Definition bare : Deployment.Engine := Deployment.create "" "".
Definition keyed : Deployment.Engine := Deployment.create "vt" "gt".

(** Generator *)
Definition requirement (fs : list string) : Generator.ProjectRequirement :=
  {| Generator.name := "Demo"; Generator.description := "a demo";
     Generator.type := "website"; Generator.features := fs;
     Generator.constraints := None |}.

Definition genEnv (o : Generator.ApiOutcome) : Generator.Env :=
  {| Generator.now := clock; Generator.new_id := "proj-1"; Generator.api := o |}.

Definition offline : Generator.Engine := Generator.create "" "".
Definition online : Generator.Engine := Generator.create "https://manus.example" "key".

Definition blank (r : Generator.ProjectRequirement) (t : Generator.TechStack)
    (path : string) : string := "".

Definition analysisWith (c : string) : Generator.Analysis :=
  {| Generator.complexity := Some c; Generator.analysedFeatures := [];
     Generator.estimatedFiles := 10; Generator.estimatedLines := 1000 |}.

(** Healer: a service that answers every request with a clean line, and
    one that always fails. *)
Definition healEnv (answer : Healer.AIOutcome) : Healer.Env :=
  {| Healer.now := clock; Healer.new_id := "heal-1";
     Healer.ai := fun _ _ => answer |}.

Definition clean : string := "let y = 2;".
Definition risky : string := "eval(x); if (true) { run(); }".

Definition result (c : string) : Healer.HealingResult :=
  {| Healer.original := c; Healer.healed := c; Healer.errorsFound := [];
     Healer.errorsFix := 0; Healer.confidence := 1; Healer.timestamp := 0 |}.

(** Ledger: one published template, with exact amounts. *)
Definition starter : Monetization.Template Q :=
  {| Monetization.id := "tpl-1"; Monetization.name := "Starter";
     Monetization.description := "starter kit"; Monetization.price := 999 # 100;
     Monetization.creator := "alice"; Monetization.downloads := 0%Q;
     Monetization.rating := 5%Q; Monetization.code := "export {}" |}.

End Samples.

(** Ledgers in the numbers of the program. *)
Module Doubles.
Import PrimFloat Monetization.

(** A template with the given price and download counter. *)
Definition kit (templateId : string) (cost count : float) : Template float :=
  {| id := templateId; name := "Kit"; description := "starter kit";
     price := cost; creator := "alice"; downloads := count;
     rating := 4.5%float; code := "export {}" |}.

(** [publishTemplate({ ... })] with a new object. *)
Definition publish (t : Template float) (e : Engine float) : Engine float :=
  let '(e1, r) := alloc t e in (publishTemplate e1 r).1.

(** One template of price 10.5, never bought. *)
Definition shop : Engine float := publish (kit "tpl-1" 10.5 0) create.

(** One template of price 0.1 (the double next to it). *)
Definition dime : Engine float :=
  publish (kit "tpl-1" 0x1.999999999999ap-4 0) create.

(** Two to the power 53, from where on the doubles are 2 apart. *)
Definition limit : float := 9007199254740992%float.

(** A ledger whose revenue is [limit], after one purchase of a template
    of that price, with a second template of price 1 that has been
    bought [limit] times. *)
Definition busy : Engine float :=
  publish (kit "tpl-7" 1 limit)
          (purchaseTemplate (publish (kit "tpl-big" limit 0) create)
                            "tpl-big" "ann").1.

(** One object published under two ids: the caller publishes it, sets
    its [id] to another value and publishes it again. *)
Definition twice : Engine float :=
  let '(e1, r) := alloc (kit "tpl-a" 10.5 0) create in
  let e2 := (publishTemplate e1 r).1 in
  let e3 := {| objects := <[r := kit "tpl-b" 10.5 0]> (objects e2);
               templates := templates e2; revenue := revenue e2;
               emitted := emitted e2 |} in
  (publishTemplate e3 r).1.
End Doubles.

(* ===================================================================== *)
(** ** [DeploymentEngine]: the project files (createProjectFiles,
       formatFilesForVercel) *)
(* ===================================================================== *)

Module ProjectFiles.

(** [s.lastIndexOf(c)] for a one-character [c]: the position of the last
    occurrence, [-1] when there is none. *)
Fixpoint lastIndexOf (c : ascii) (s : string) : Z :=
  match s with
  | EmptyString => -1
  | String a s' =>
      let later := lastIndexOf c s' in
      if 0 <=? later then later + 1
      else if decide (a = c) then 0 else -1
  end.

(** [s.substring(0, n)]: a negative [n] counts as 0, one beyond the
    length as the length. *)
Definition substring0 (n : Z) (s : string) : string :=
  String.substring 0 (Z.to_nat n) s.

(** [fullPath.substring(0, fullPath.lastIndexOf('/'))] *)
Definition dirPath (fullPath : string) : string :=
  substring0 (lastIndexOf "/" fullPath) fullPath.

(** The four characters that replace a quote, and
    [content.replace(/'/g, ...)] with them. *)
Definition escapedQuote : string :=
  String Regex.squote (String "\" (String Regex.squote (String Regex.squote EmptyString))).

Fixpoint escapeQuotes (content : string) : string :=
  match content with
  | EmptyString => EmptyString
  | String c rest =>
      if decide (c = Regex.squote) then escapedQuote +:+ escapeQuotes rest
      else String c (escapeQuotes rest)
  end.

(** The argument of [echo] in the command line. *)
Definition echoArgument (content : string) : string :=
  String Regex.squote (escapeQuotes content +:+ String Regex.squote EmptyString).

(** The commands [createProjectFiles(projectPath, files)] passes to
    [execSync], in order (as long as none of them throws). *)
Definition fileCommands (projectPath : string) (entry : string * string)
  : list string :=
  let fullPath := projectPath +:+ "/" +:+ entry.1 in
  ["mkdir -p " +:+ dirPath fullPath;
   "echo " +:+ echoArgument entry.2 +:+ " > " +:+ fullPath].

Definition createProjectFiles (projectPath : string)
    (files : list (string * string)) : list string :=
  ("mkdir -p " +:+ projectPath) :: (files ≫= fileCommands projectPath).

(** How the shell reads a word made of single-quoted parts and of
    characters escaped by a backslash outside the quotes: within quotes
    every character up to the closing quote stands for itself; outside,
    a backslash makes the next character stand for itself. [None] when a
    quote is left open or the word has another unquoted character. *)
Fixpoint shellWord (quoted : bool) (s : string) : option string :=
  match s with
  | EmptyString => if quoted then None else Some EmptyString
  | String c rest =>
      if quoted then
        if decide (c = Regex.squote) then shellWord false rest
        else String c <$> shellWord true rest
      else if decide (c = Regex.squote) then shellWord true rest
      else if decide (c = "\"%char) then
        match rest with
        | String d rest' => String d <$> shellWord false rest'
        | EmptyString => None
        end
      else None
  end.

(** One entry of the object [formatFilesForVercel] builds. *)
Record VercelFile : Type := { file : string; data : string }.

Section vercel.
(** [Buffer.from(content).toString('base64')] of the runtime. *)
Variable base64 : string → string.

(** [formatFilesForVercel(files)]: the own properties of the object it
    builds, assigned in the order of the map. An assignment to the name
    [__proto__] of a plain object sets its prototype and makes no
    property. *)
Definition formatFilesForVercel (files : list (string * string))
  : gmap string VercelFile :=
  foldl (fun formatted entry =>
           if decide (entry.1 = "__proto__") then formatted
           else <[entry.1 := {| file := entry.1; data := base64 entry.2 |}]>
                  formatted)
        ∅ files.
End vercel.
End ProjectFiles.

(* ===================================================================== *)
(** ** [DeploymentEngine]: when a call succeeds *)
(* ===================================================================== *)

Module DeploymentQueries.
Import Deployment.

(** The target is one of the four and the token it needs is there
    (Docker and AWS need none). *)
Definition authorised (e : Engine) (config : DeploymentConfig) : Prop :=
  (target config = "vercel" ∧ vercelToken e ≠ "")
  ∨ (target config = "github" ∧ githubToken e ≠ "")
  ∨ target config = "docker"
  ∨ target config = "aws".

(** The event a call emits after [deployment-started]. *)
Definition report (config : DeploymentConfig) (id : string)
    (r : DeploymentResult) : Event :=
  if bool_decide (target config ∈ targets) then
    if success r then deployment_success id (url r) (duration r)
    else deployment_failed id (logs r)
  else deployment_error id ("Unknown deployment target: " +:+ target config).
End DeploymentQueries.

(* ===================================================================== *)
(** ** [SelfHealer]: history and statistics *)
(* ===================================================================== *)

Module HealerQueries.
Import Healer.

(** [getHistory(healingId)] *)
Definition getHistory (h : State) (healingId : string) : option (list HealingResult) :=
  JSMap.get healingId (healingHistory h).

Record Statistics : Type := {
  totalScans : Z;
  totalErrors : Z;
  totalFixed : Z;
  fixRate : Q;
  avgConfidence : Q;
}.

(** The body of the inner [forEach] of [getStatistics]: the counters are
    [totalErrors], [totalFixed], [totalScans], [avgConfidence]. *)
Definition count (acc : Z * Z * Z * Q) (result : HealingResult) : Z * Z * Z * Q :=
  let '(totalErrors, totalFixed, totalScans, avgConfidence) := acc in
  (totalErrors + Z.of_nat (length (errorsFound result)),
   totalFixed + errorsFix result,
   totalScans + 1,
   (avgConfidence + confidence result)%Q).

(** [getStatistics()] *)
Definition getStatistics (h : State) : Statistics :=
  let '(totalErrors, totalFixed, totalScans, avgConfidence) :=
    foldl (fun acc results => foldl count acc results) (0, 0, 0, 0%Q)
          (JSMap.values (healingHistory h)) in
  {| totalScans := totalScans;
     totalErrors := totalErrors;
     totalFixed := totalFixed;
     fixRate :=
       if 0 <? totalErrors
       then (inject_Z totalFixed / inject_Z totalErrors * 100)%Q else 0%Q;
     avgConfidence :=
       if 0 <? totalScans then (avgConfidence / inject_Z totalScans)%Q else 0%Q |}.

(** What a stored result satisfies: between 0 and as many fixes as
    findings, and a confidence between 0 and 1. *)
Definition sane (r : HealingResult) : Prop :=
  0 ≤ errorsFix r ≤ Z.of_nat (length (errorsFound r))
  ∧ (0 <= confidence r)%Q ∧ (confidence r <= 1)%Q.

(** The counters of [getStatistics] while it runs: fixes between 0 and
    the findings, scans not negative, and the summed confidence between
    0 and the number of scans. *)
Definition balanced (acc : Z * Z * Z * Q) : Prop :=
  0 ≤ acc.1.1.2 ≤ acc.1.1.1 ∧ 0 ≤ acc.1.2
  ∧ (0 <= acc.2)%Q ∧ (acc.2 <= inject_Z acc.1.2)%Q.

(** A completion service that never gives a new text: every request
    throws, or answers without a response, with an empty one, or with the
    text it was asked to fix. *)
Definition unhelpful (env : Env) : Prop :=
  ∀ k code error language,
    fixError env k code error language = None
    ∨ fixError env k code error language = Some code.

(** The pattern takes at least one character: it starts with an atom
    taken once or under [+]. *)
Definition consuming (p : Regex.regex) : bool :=
  match p with
  | Regex.Atom _ Regex.Once :: _ | Regex.Atom _ Regex.Plus :: _ => true
  | _ => false
  end.

(** [s] occurs in [code]. *)
Definition occursIn (s code : string) : Prop :=
  ∃ before after, code = before +:+ s +:+ after.

Section runs.
Variable regexMatch : Regex.regex → string → option (string * list string).

(** A run of [healCode] calls: environment, code and language of each. *)
Definition heal_all (calls : list (Env * string * string)) (h : State) : State :=
  foldl (fun acc c => (healCode regexMatch acc c.1.1 c.1.2 c.2).1) h calls.
End runs.
End HealerQueries.

(* ===================================================================== *)
(** ** [ULTRABUILDEngine]: queries and the package manifest *)
(* ===================================================================== *)

Module GeneratorQueries.
Import Generator.

(** [getProject(projectId)] and [getAllProjects()] *)
Definition getProject (e : Engine) (projectId : string) : option GeneratedProject :=
  JSMap.get projectId (generatedProjects e).
Definition getAllProjects (e : Engine) : list GeneratedProject :=
  JSMap.values (generatedProjects e).

Record Status : Type := {
  projectsGenerated : Z;
  maxCapacity : Z;
  manusApiConnected : bool;
}.

(** [getStatus()]; [!!this.manusApiUrl] looks at the URL only. *)
Definition getStatus (e : Engine) : Status :=
  {| projectsGenerated := JSMap.size (generatedProjects e);
     maxCapacity := maxProjects;
     manusApiConnected := truthy (manusApiUrl e) |}.

(** [a?.includes(x)] *)
Definition includes (a : option (list string)) (x : string) : bool :=
  match a with
  | Some l => bool_decide (x ∈ l)
  | None => false
  end.

(** The [dependencies] object of [generatePackageJson]: assignments to
    its properties in the order of the source. *)
Definition dependencies (stack : TechStack) : list (string * string) :=
  let d := JSMap.empty in
  let d :=
    if includes (frontend stack) "React 19"
    then JSMap.set "react-dom" "^19.0.0" (JSMap.set "react" "^19.0.0" d) else d in
  let d :=
    if includes (frontend stack) "Next.js 15"
    then JSMap.set "react" "^19.0.0" (JSMap.set "next" "^15.0.0" d) else d in
  let d :=
    if includes (backend stack) "Express"
    then JSMap.set "helmet" "^7.0.0"
           (JSMap.set "cors" "^2.8.5" (JSMap.set "express" "^4.18.0" d))
    else d in
  if includes (frontend stack) "Phaser 3"
  then JSMap.set "phaser" "^3.55.0" d else d.

(** [c.toLowerCase()] for one 8-bit code unit: the letters A-Z and the
    capital letters of Latin-1 (all of 192-222 but the sign at 215). *)
Definition lower (c : ascii) : ascii :=
  let n := N_of_ascii c in
  if ((65 <=? n) && (n <=? 90)
      || (192 <=? n) && (n <=? 222) && negb (n =? 215))%N
  then ascii_of_N (n + 32) else c.

Fixpoint toLowerCase (s : string) : string :=
  match s with
  | EmptyString => EmptyString
  | String c rest => String (lower c) (toLowerCase rest)
  end.

(** [s.replace(/\s+/g, '-')]: every maximal run of white space becomes
    one dash; [run] tells that the character before was white space. *)
Fixpoint dashes (run : bool) (s : string) : string :=
  match s with
  | EmptyString => EmptyString
  | String c rest =>
      if Regex.is_space c
      then if run then dashes true rest else String "-" (dashes true rest)
      else String c (dashes false rest)
  end.

(** The [name] of the manifest:
    [requirement.name.toLowerCase().replace(/\s+/g, '-')]. *)
Definition packageName (requirement : ProjectRequirement) : string :=
  dashes false (toLowerCase (name requirement)).

Definition isUpper (c : ascii) : bool :=
  let n := N_of_ascii c in ((65 <=? n) && (n <=? 90))%N.

(** The characters of a string. *)
Fixpoint chars (s : string) : list ascii :=
  match s with
  | EmptyString => []
  | String c rest => c :: chars rest
  end.

Section runs.
Variable content : ProjectRequirement → TechStack → string → string.

End runs.
End GeneratorQueries.

(* ===================================================================== *)
(** ** [MonetizationEngine]: states and runs *)
(* ===================================================================== *)

Module Ledger.
Import Monetization.

(** The calls a client makes. *)
Inductive Call (N : Type) : Type :=
| Publish (t : Template N)
| Purchase (templateId buyerId : string).
Arguments Publish {N}.
Arguments Purchase {N}.

Section runs.
Context {N : Type} `{!Number N}.

(** Every stored reference points to a live object that carries the id
    it is stored under: what [publishTemplate] establishes, as long as
    callers do not change the [id] of an object they published. *)
Definition keyed (e : Engine N) : Prop :=
  ∀ k r, JSMap.get k (templates e) = Some r →
         ∃ t, objects e !! r = Some t ∧ id t = k.

(** [n] calls of [purchaseTemplate] with the same arguments. *)
Fixpoint purchases (n : nat) (e : Engine N) (templateId buyerId : string)
  : Engine N :=
  match n with
  | O => e
  | S n' => purchases n' (purchaseTemplate e templateId buyerId).1 templateId buyerId
  end.

(** A caller publishing a new object: [publishTemplate({ ... })]. *)
Definition publishNew (e : Engine N) (t : Template N) : Engine N :=
  let '(e1, r) := alloc t e in (publishTemplate e1 r).1.

(** A run of calls. *)
Definition step (e : Engine N) (c : Call N) : Engine N :=
  match c with
  | Publish t => publishNew e t
  | Purchase templateId buyerId => (purchaseTemplate e templateId buyerId).1
  end.

Definition run (calls : list (Call N)) (e : Engine N) : Engine N :=
  foldl step e calls.

(** [this.templates.get(k) === this.templates.get(k')] for two ids that
    are there: both hold the same object. *)
Definition sameObject (e : Engine N) (k k' : string) : bool :=
  match JSMap.get k (templates e), JSMap.get k' (templates e) with
  | Some r, Some r' => bool_decide (r = r')
  | _, _ => false
  end.
End runs.

(** No object has a negative price. *)
Definition priced (e : Engine Q) : Prop :=
  ∀ r t, objects e !! r = Some t → (0 <= price t)%Q.
End Ledger.

(* ===================================================================== *)
(** ** Runs that fill the stores *)
(* ===================================================================== *)

Module Runs.




End Runs.

(* ===================================================================== *)
(** ** Facts about the map model *)
(* ===================================================================== *)

Section jsmap_facts.
Context {V : Type}.
Implicit Types (m recs : list (string * V)) (k : string) (v : V).

Lemma get_None_keys k m : JSMap.get k m = None ↔ k ∉ JSMap.keys m.
Proof.
  induction m as [|[k' v'] m IH]; simpl.
  - split; [intros _; apply not_elem_of_nil | done].
  - case_decide as Hk; subst.
    + split; [done | intros []; apply elem_of_cons; auto].
    + rewrite IH. unfold JSMap.keys. simpl. rewrite not_elem_of_cons.
      split; [by split | by intros []].
Qed.

Lemma set_fresh k v m : JSMap.get k m = None → JSMap.set k v m = m ++ [(k, v)].
Proof.
  induction m as [|[k' v'] m IH]; simpl; [done|].
  case_decide; [done|]. intros Hg. by rewrite IH.
Qed.

Lemma length_set k v m :
  length (JSMap.set k v m) =
  if JSMap.has k m then length m else S (length m).
Proof.
  unfold JSMap.has. induction m as [|[k' v'] m IH]; simpl; [done|].
  case_decide; subst; simpl; [done|].
  rewrite IH. by destruct (JSMap.get k m).
Qed.

Lemma keys_set k v m :
  JSMap.keys (JSMap.set k v m) =
  if JSMap.has k m then JSMap.keys m else JSMap.keys m ++ [k].
Proof.
  unfold JSMap.has, JSMap.keys. induction m as [|[k' v'] m IH]; [done|].
  cbn [JSMap.set JSMap.get]. case_decide; subst; [done|].
  rewrite !fmap_cons, IH. by destruct (JSMap.get k m).
Qed.

Lemma get_set_eq k v m : JSMap.get k (JSMap.set k v m) = Some v.
Proof.
  induction m as [|[k' v'] m IH]; simpl.
  - by rewrite decide_True.
  - case_decide; subst; simpl; [by rewrite decide_True | by rewrite decide_False].
Qed.

Lemma get_set_ne k k' v m : k ≠ k' → JSMap.get k' (JSMap.set k v m) = JSMap.get k' m.
Proof.
  intros Hne. induction m as [|[k0 v0] m IH]; simpl.
  - by rewrite decide_False.
  - case_decide; subst; simpl.
    + by rewrite !decide_False.
    + case_decide; [done | apply IH].
Qed.

Lemma delete_first_tail m : JSMap.delete_first m = tail m.
Proof.
  destruct m as [|[k v] m]; [done|].
  unfold JSMap.delete_first; simpl. by rewrite decide_True.
Qed.

Lemma put_bounded_unfold max k v m :
  JSMap.put_bounded max k v m =
  if max <? JSMap.size (JSMap.set k v m)
  then tail (JSMap.set k v m) else JSMap.set k v m.
Proof. unfold JSMap.put_bounded. by rewrite delete_first_tail. Qed.

(** The bound is an invariant of the insertion pattern. *)
Lemma put_bounded_size max k v m :
  JSMap.size m ≤ max → JSMap.size (JSMap.put_bounded max k v m) ≤ max.
Proof.
  rewrite put_bounded_unfold. unfold JSMap.size. intros Hm.
  pose proof (length_set k v m) as Hl.
  destruct (Z.ltb_spec max (Z.of_nat (length (JSMap.set k v m)))) as [Hlt|Hle];
    [|done].
  rewrite length_tl. destruct (JSMap.has k m); lia.
Qed.

(** A new key in a store with room goes to the end. *)
Lemma put_bounded_room max k v m :
  JSMap.get k m = None → JSMap.size m < max →
  JSMap.put_bounded max k v m = m ++ [(k, v)].
Proof.
  intros Hk Hm. rewrite put_bounded_unfold, (set_fresh _ _ _ Hk).
  unfold JSMap.size in *. rewrite length_app; simpl.
  destruct (Z.ltb_spec max (Z.of_nat (length m + 1))); [lia | done].
Qed.

(** A new key in a full store pushes the oldest entry out. *)
Lemma put_bounded_full max k v m :
  JSMap.get k m = None → JSMap.size m = max →
  JSMap.put_bounded max k v m = tail (m ++ [(k, v)]).
Proof.
  intros Hk Hm. rewrite put_bounded_unfold, (set_fresh _ _ _ Hk).
  unfold JSMap.size in *. rewrite length_app; simpl.
  destruct (Z.ltb_spec max (Z.of_nat (length m + 1))); [done | lia].
Qed.

(** A key already present is overwritten in place. *)
Lemma put_bounded_present max k v m :
  is_Some (JSMap.get k m) → JSMap.size m ≤ max →
  JSMap.put_bounded max k v m = JSMap.set k v m.
Proof.
  intros Hk Hm. rewrite put_bounded_unfold.
  pose proof (length_set k v m) as Hl. unfold JSMap.has in Hl.
  destruct Hk as [x Hx]. rewrite Hx in Hl.
  unfold JSMap.size in *. rewrite Hl.
  destruct (Z.ltb_spec max (Z.of_nat (length m))); [lia | done].
Qed.

Lemma put_all_size max recs m :
  JSMap.size m ≤ max → JSMap.size (JSMap.put_all max recs m) ≤ max.
Proof.
  revert m. induction recs as [|[k v] recs IH]; intros m Hm; simpl; [done|].
  apply IH. by apply put_bounded_size.
Qed.

(** One insertion of a new key, seen from a run of insertions: the store
    followed by the records still to come keeps its keys distinct, and
    loses its first entry exactly when it was full. *)
Lemma put_bounded_step max k v m recs :
  NoDup (JSMap.keys (m ++ (k, v) :: recs)) → JSMap.size m ≤ max →
  JSMap.get k m = None
  ∧ NoDup (JSMap.keys (JSMap.put_bounded max k v m ++ recs))
  ∧ JSMap.put_bounded max k v m ++ recs =
    drop (Z.to_nat (JSMap.size m + 1 - max)) (m ++ (k, v) :: recs).
Proof.
  intros Hnd Hm.
  assert (JSMap.get k m = None) as Hk.
  { apply get_None_keys. unfold JSMap.keys in *.
    rewrite fmap_app in Hnd. apply NoDup_app in Hnd as (_ & Hd & _).
    intros Hin. apply (Hd _ Hin). simpl. apply elem_of_cons; auto. }
  split; [done|].
  assert (m ++ (k, v) :: recs = (m ++ [(k, v)]) ++ recs) as Happ
    by (by rewrite <- app_assoc).
  destruct (decide (JSMap.size m < max)) as [Hlt|Hge].
  - rewrite (put_bounded_room _ _ _ _ Hk Hlt), <- Happ.
    replace (Z.to_nat _) with 0%nat by lia. done.
  - assert (JSMap.size m = max) as Heq by lia.
    rewrite (put_bounded_full _ _ _ _ Hk Heq).
    replace (Z.to_nat _) with 1%nat by lia.
    destruct m as [|kv m]; simpl in *.
    + split; [|done]. unfold JSMap.keys in *. simpl in Hnd.
      by apply NoDup_cons in Hnd as [_ ?].
    + rewrite <- app_assoc. simpl. split; [|done].
      unfold JSMap.keys in *. simpl in Hnd. by apply NoDup_cons in Hnd as [_ ?].
Qed.

(** Inserting records with pairwise distinct new keys keeps the newest
    [max] of them. *)
Lemma put_all_distinct max recs m :
  NoDup (JSMap.keys (m ++ recs)) → JSMap.size m ≤ max →
  JSMap.put_all max recs m =
  drop (Z.to_nat (JSMap.size (m ++ recs) - max)) (m ++ recs).
Proof.
  revert m. induction recs as [|[k v] recs IH]; intros m Hnd Hm; simpl.
  - rewrite app_nil_r. replace (Z.to_nat _) with 0%nat by lia. done.
  - destruct (put_bounded_step max k v m recs Hnd Hm) as (Hk & Hnd' & Hstep).
    pose proof (put_bounded_size max k v m Hm) as Hm'.
    rewrite IH by done. rewrite Hstep.
    assert (JSMap.size (JSMap.put_bounded max k v m ++ recs)
            = JSMap.size (m ++ (k, v) :: recs)
              - Z.of_nat (Z.to_nat (JSMap.size m + 1 - max))) as Hsz.
    { rewrite Hstep. unfold JSMap.size in *. rewrite length_drop.
      rewrite length_app. simpl. lia. }
    rewrite <- Hstep, Hsz, Hstep. rewrite drop_drop. f_equal.
    unfold JSMap.size in *. rewrite length_app. simpl. lia.
Qed.
End jsmap_facts.

Section jsmap_more.
Context {V : Type}.
Implicit Types (m : list (string * V)) (k : string) (v : V).

Lemma get_app_fresh k m m2 :
  JSMap.get k m = None → JSMap.get k (m ++ m2) = JSMap.get k m2.
Proof.
  induction m as [|[k' v'] m IH]; simpl; [done|].
  case_decide; [done | apply IH].
Qed.

Lemma get_tail_fresh k m m2 :
  JSMap.get k m = None → JSMap.get k (tail m ++ m2) = JSMap.get k m2.
Proof.
  destruct m as [|[k' v'] m]; simpl; [done|].
  case_decide; [done | apply get_app_fresh].
Qed.

(** The record just stored can be read back under its key. *)
Lemma get_put_bounded max k v m :
  0 < max → JSMap.size m ≤ max →
  JSMap.get k (JSMap.put_bounded max k v m) = Some v.
Proof.
  intros Hpos Hm. destruct (JSMap.get k m) as [x|] eqn:Hk.
  - rewrite put_bounded_present by (eauto || done). apply get_set_eq.
  - destruct (decide (JSMap.size m < max)) as [Hlt|Hge].
    + rewrite put_bounded_room by done.
      rewrite get_app_fresh by done. simpl. by rewrite decide_True.
    + rewrite put_bounded_full by (done || lia).
      destruct m as [|kv m]; [unfold JSMap.size in *; simpl in *; lia|].
      change (tail ((kv :: m) ++ [(k, v)])) with (tail (kv :: m) ++ [(k, v)]).
      rewrite get_tail_fresh by done. simpl. by rewrite decide_True.
Qed.
End jsmap_more.

(* ===================================================================== *)
(** ** Facts about the deployment engine *)
(* ===================================================================== *)

Section deployment_facts.
Import Deployment.
Implicit Types (e : Engine) (env : Env) (cfg : DeploymentConfig).

Lemma dispatch_emit ev e env cfg : dispatch (emit ev e) env cfg = dispatch e env cfg.
Proof. reflexivity. Qed.

Lemma dispatch_supported e env cfg :
  target cfg ∈ targets → ∃ r0, dispatch e env cfg = inr r0.
Proof.
  unfold targets, dispatch. intros Ht.
  repeat (case_decide; [eauto|]).
  repeat (apply elem_of_cons in Ht as [Ht|Ht]; [done|]).
  by apply elem_of_nil in Ht.
Qed.

Lemma dispatch_unsupported e env cfg :
  target cfg ∉ targets →
  dispatch e env cfg = inl ("Unknown deployment target: " +:+ target cfg).
Proof.
  unfold targets, dispatch. intros Ht.
  rewrite !decide_False; [done|..];
    intros Hd; apply Ht; rewrite Hd; repeat constructor.
Qed.

(** [deploy] when the [switch] returns: stamp, store, report. *)
Lemma deploy_returned e env cfg r0 :
  dispatch e env cfg = inr r0 →
  let r := {| success := success r0; url := url r0;
              deploymentId := deploymentId r0; logs := logs r0;
              timestamp := now env 3; duration := now env 2 - now env 0 |} in
  (deploy e env cfg).2 = r ∧
  deployments (deploy e env cfg).1 =
    JSMap.put_bounded maxDeployments (new_id env) r (deployments e).
Proof.
  intros Hd. unfold deploy. rewrite dispatch_emit, Hd. simpl.
  split; [done|]. by destruct (success r0).
Qed.

(** [deploy] when the [switch] throws: nothing is stored. *)
Lemma deploy_threw e env cfg message :
  dispatch e env cfg = inl message →
  (deploy e env cfg).2 =
    {| success := false; url := None; deploymentId := None;
       logs := Some message; timestamp := now env 1;
       duration := now env 2 - now env 0 |} ∧
  deployments (deploy e env cfg).1 = deployments e.
Proof. intros Hd. unfold deploy. rewrite dispatch_emit, Hd. done. Qed.

(** The size bound of the deployments store is kept by every call. *)
Lemma deploy_bounded e env cfg :
  JSMap.size (deployments e) ≤ maxDeployments →
  JSMap.size (deployments (deploy e env cfg).1) ≤ maxDeployments.
Proof.
  intros Hm. destruct (dispatch e env cfg) as [msg|r0] eqn:Hd.
  - by rewrite (proj2 (deploy_threw _ _ _ _ Hd)).
  - rewrite (proj2 (deploy_returned _ _ _ _ Hd)). by apply put_bounded_size.
Qed.

Lemma deploy_all_bounded calls e :
  JSMap.size (deployments e) ≤ maxDeployments →
  JSMap.size (deployments (deploy_all calls e)) ≤ maxDeployments.
Proof.
  revert e. induction calls as [|[env cfg] calls IH]; intros e Hm; simpl; [done|].
  apply IH. by apply deploy_bounded.
Qed.

(** C1. A call of [deploy] with one of the four targets stores its
    result, successful or failed, under the new deployment id in the
    store bounded by 5000: a new id is appended, after the oldest entry
    is dropped when the store is full. *)
Theorem deploy_stores_result e env cfg :
  target cfg ∈ targets →
  JSMap.size (deployments e) ≤ maxDeployments →
  let e' := (deploy e env cfg).1 in
  let r := (deploy e env cfg).2 in
  getDeployment e' (new_id env) = Some r
  ∧ JSMap.size (deployments e') ≤ maxDeployments
  ∧ (getDeployment e (new_id env) = None →
     deployments e' =
       if JSMap.size (deployments e) <? 5000
       then deployments e ++ [(new_id env, r)]
       else tail (deployments e) ++ [(new_id env, r)]).
Proof.
  intros Ht Hm e' r. subst e' r.
  destruct (dispatch_supported e env cfg Ht) as [r0 Hd].
  destruct (deploy_returned _ _ _ _ Hd) as [Hr He]. simpl in Hr.
  unfold getDeployment. rewrite He, Hr. split; [|split].
  - by apply get_put_bounded.
  - by apply put_bounded_size.
  - intros Hfresh. unfold maxDeployments in *.
    destruct (Z.ltb_spec (JSMap.size (deployments e)) 5000) as [Hlt|Hge].
    + by apply put_bounded_room.
    + rewrite put_bounded_full by (done || lia).
      destruct (deployments e); [unfold JSMap.size in *; simpl in *; lia | done].
Qed.

Lemma deploy_stores_result_witness :
  let failed := deploy Samples.bare (Samples.deployEnv "dep-1" Samples.done)
                       (Samples.config "vercel") in
  let succeeded := deploy Samples.keyed (Samples.deployEnv "dep-2" Samples.done)
                          (Samples.config "vercel") in
  (success failed.2 = false
   ∧ getDeployment failed.1 "dep-1" = Some failed.2
   ∧ deployments failed.1 = [("dep-1", failed.2)])
  ∧ (success succeeded.2 = true
     ∧ getDeployment succeeded.1 "dep-2" = Some succeeded.2).
Proof.
  assert (target (Samples.config "vercel") ∈ targets) as Ht
    by (repeat constructor).
  assert (JSMap.size (deployments Samples.bare) ≤ maxDeployments) as Hm
    by (vm_compute; discriminate).
  assert (JSMap.size (deployments Samples.keyed) ≤ maxDeployments) as Hm'
    by (vm_compute; discriminate).
  destruct (deploy_stores_result Samples.bare
              (Samples.deployEnv "dep-1" Samples.done)
              (Samples.config "vercel") Ht Hm) as (Hget & _ & Happ).
  destruct (deploy_stores_result Samples.keyed
              (Samples.deployEnv "dep-2" Samples.done)
              (Samples.config "vercel") Ht Hm') as (Hget' & _).
  split; [split; [reflexivity|]; split; [exact Hget | exact (Happ eq_refl)]|].
  split; [reflexivity | exact Hget'].
Defined.

(** C3. With the token of the target missing, [deploy] to Vercel or to
    GitHub returns a result with [success] false whose log contains
    "not configured"; the [switch] returns a value, nothing is thrown. *)
Theorem deploy_without_token e env cfg :
  (target cfg = "vercel" ∧ vercelToken e = "")
  ∨ (target cfg = "github" ∧ githubToken e = "") →
  let r := (deploy e env cfg).2 in
  success r = false
  ∧ (∃ l, logs r = Some l ∧ includes l "not configured" = true)
  ∧ (∃ r0, dispatch e env cfg = inr r0).
Proof.
  intros [[Ht Hk]|[Ht Hk]].
  - assert (dispatch e env cfg =
            inr (failure "Vercel token not configured" (now env 1))) as Hd.
    { unfold dispatch, deployToVercel, absent. rewrite Ht, Hk. done. }
    destruct (deploy_returned _ _ _ _ Hd) as [Hr _]. simpl. rewrite Hr.
    split; [done|]. split; [|eauto]. eexists; split; [done|]. by vm_compute.
  - assert (dispatch e env cfg =
            inr (failure "GitHub token not configured" (now env 1))) as Hd.
    { unfold dispatch, deployToGitHub, absent. rewrite Ht, Hk. done. }
    destruct (deploy_returned _ _ _ _ Hd) as [Hr _]. simpl. rewrite Hr.
    split; [done|]. split; [|eauto]. eexists; split; [done|]. by vm_compute.
Qed.

Lemma deploy_without_token_witness :
  success (deploy Samples.bare (Samples.deployEnv "dep-1" Samples.done)
                  (Samples.config "github")).2 = false.
Proof.
  refine (proj1 (deploy_without_token Samples.bare
                   (Samples.deployEnv "dep-1" Samples.done)
                   (Samples.config "github") _)).
  right. split; reflexivity.
Defined.

(** C10. [getStatus] never reports [NaN] as the success rate: for an
    empty store the rate is 0, and in every state the total is the size
    of the store and the successful and failed counts add up to it. *)
Theorem getStatus_rate_defined e :
  let s := getStatus e in
  JSNum.is_nan (successRate s) = false
  ∧ (deployments e = [] → successRate s = JSNum.Fin 0)
  ∧ totalDeployments s = JSMap.size (deployments e)
  ∧ successful s + failed s = totalDeployments s.
Proof.
  simpl. split; [|split; [|split]].
  - unfold JSNum.or.
    destruct (JSNum.truthy _) eqn:Ht; [|done].
    by destruct (JSNum.mul _ _).
  - intros ->. reflexivity.
  - done.
  - lia.
Qed.

Lemma getStatus_rate_defined_witness :
  successRate (getStatus Samples.bare) = JSNum.Fin 0.
Proof.
  exact (proj1 (proj2 (getStatus_rate_defined Samples.bare)) eq_refl).
Defined.
End deployment_facts.

(* ===================================================================== *)
(** ** Facts about the project generator *)
(* ===================================================================== *)

Section generator_facts.
Import Generator.
Implicit Types (e : Engine) (env : Env) (r : ProjectRequirement).

(** C5. The local estimate depends on the number of features only: up to
    3 it is simple, up to 8 medium, up to 15 complex, beyond that
    enterprise; so 0, 3, 4, 8, 9, 15, 16 features give simple, simple,
    medium, medium, complex, complex, enterprise. *)
Theorem estimateComplexity_by_count r (n : nat) :
  length (features r) = n →
  ((n ≤ 3)%nat → estimateComplexity r = "simple")
  ∧ ((3 < n ≤ 8)%nat → estimateComplexity r = "medium")
  ∧ ((8 < n ≤ 15)%nat → estimateComplexity r = "complex")
  ∧ ((15 < n)%nat → estimateComplexity r = "enterprise")
  ∧ (n = 0%nat ∨ n = 3%nat → estimateComplexity r = "simple")
  ∧ (n = 4%nat ∨ n = 8%nat → estimateComplexity r = "medium")
  ∧ (n = 9%nat ∨ n = 15%nat → estimateComplexity r = "complex")
  ∧ (n = 16%nat → estimateComplexity r = "enterprise")
  ∧ (∀ r', length (features r') = n → estimateComplexity r' = estimateComplexity r).
Proof.
  intros Hn. unfold estimateComplexity.
  repeat split; try (intros r' Hr'; rewrite Hr', Hn; reflexivity);
    intros Hc; rewrite Hn;
    repeat (match goal with
            | |- context [?a <=? ?b] => destruct (Z.leb_spec a b)
            end; try lia; try reflexivity).
Qed.

Lemma estimateComplexity_by_count_witness :
  map (fun fs => estimateComplexity (Samples.requirement fs))
      [[]; ["a"; "b"; "c"]; ["a"; "b"; "c"; "d"]]
  = ["simple"; "simple"; "medium"].
Proof.
  pose proof (estimateComplexity_by_count (Samples.requirement []) 0 eq_refl)
    as (_ & _ & _ & _ & H0 & _).
  pose proof (estimateComplexity_by_count
                (Samples.requirement ["a"; "b"; "c"]) 3 eq_refl)
    as (H3 & _).
  pose proof (estimateComplexity_by_count
                (Samples.requirement ["a"; "b"; "c"; "d"]) 4 eq_refl)
    as (_ & H4 & _).
  simpl map. rewrite (H0 (or_introl eq_refl)), (H3 (le_n 3)).
  rewrite H4; [reflexivity | split; [apply le_n | repeat constructor]].
Defined.

Lemma complexityOf_estimate r analysis :
  complexity analysis = Some (estimateComplexity r) →
  complexityOf analysis = estimateComplexity r.
Proof.
  unfold complexityOf, estimateComplexity. intros ->.
  repeat (match goal with
          | |- context [?a <=? ?b] => destruct (a <=? b)
          end); reflexivity.
Qed.








Section fallback.
Variable content : ProjectRequirement → TechStack → string → string.

Lemma generateProject_stack e env r :
  techStack (generateProject content e env r).2 =
  selectTechStack (type r) (analyzeRequirement e (api env) r).
Proof. reflexivity. Qed.

(** C2, the claim as stated fails: with both credentials set and the
    request failing, a requirement without features (local estimate
    simple) is given complexity medium, and the project gets the whole
    catalog entry instead of the one cut down for simple. *)
Lemma analysis_failure_uses_medium :
  let r := Samples.requirement [] in
  let env := Samples.genEnv ApiThrew in
  estimateComplexity r = "simple"
  ∧ complexityUsed Samples.online env r = "medium"
  ∧ complexityUsed Samples.online env r ≠ estimateComplexity r
  ∧ frontend (techStack (generateProject Samples.blank Samples.online env r).2)
    = Some ["React 19"; "Next.js 15"; "Vue 3"; "Svelte"].
Proof. vm_compute. repeat split; done. Qed.

(** C2 (amended). Without credentials [generateProject] uses the local
    estimate computed from the feature count: that is the complexity
    handed to the tech-stack selection. With credentials and a failing
    request (network error, timeout) it falls back, without throwing, to
    the fixed complexity medium, so the catalog entry is selected as it
    is. *)
Theorem analysis_fallback e env r :
  (manusApiUrl e = "" ∨ manusApiKey e = "" →
     complexity (analyzeRequirement e (api env) r) = Some (estimateComplexity r)
     ∧ complexityUsed e env r = estimateComplexity r
     ∧ techStack (generateProject content e env r).2 =
       selectTechStack (type r)
         {| complexity := Some (estimateComplexity r);
            analysedFeatures := features r;
            estimatedFiles := Z.of_nat (length (features r)) * 3 + 10;
            estimatedLines := Z.of_nat (length (features r)) * 500 + 1000 |})
  ∧ (manusApiUrl e ≠ "" → manusApiKey e ≠ "" → api env = ApiThrew →
     complexityUsed e env r = "medium"
     ∧ techStack (generateProject content e env r).2 =
       default other (template (type r))).
Proof.
  split.
  - intros Hcred.
    assert (truthy (manusApiUrl e) && truthy (manusApiKey e) = false) as Hoff.
    { unfold truthy. destruct Hcred as [-> | ->]; simpl; [done|].
      by rewrite andb_false_r. }
    rewrite generateProject_stack. unfold complexityUsed, analyzeRequirement.
    rewrite Hoff. split; [done|]. split; [|done].
    by apply complexityOf_estimate.
  - intros Hurl Hkey Hthrew.
    assert (truthy (manusApiUrl e) && truthy (manusApiKey e) = true) as Hon.
    { unfold truthy. by rewrite !bool_decide_eq_false_2. }
    rewrite generateProject_stack. unfold complexityUsed, analyzeRequirement.
    rewrite Hon, Hthrew. done.
Qed.
End fallback.

Lemma analysis_fallback_witness :
  complexityUsed Samples.offline (Samples.genEnv ApiThrew)
                 (Samples.requirement []) = "simple"
  ∧ complexityUsed Samples.online (Samples.genEnv ApiThrew)
                   (Samples.requirement []) = "medium".
Proof.
  pose proof (analysis_fallback Samples.blank Samples.offline
                (Samples.genEnv ApiThrew) (Samples.requirement [])) as [Hoff _].
  pose proof (analysis_fallback Samples.blank Samples.online
                (Samples.genEnv ApiThrew) (Samples.requirement [])) as [_ Hon].
  split.
  - exact (proj1 (proj2 (Hoff (or_introl eq_refl)))).
  - refine (proj1 (Hon _ _ eq_refl)); vm_compute; discriminate.
Defined.

End generator_facts.

(* ===================================================================== *)
(** ** Facts about the bounded stores *)
(* ===================================================================== *)

Section history_facts.
Import Healer.
Implicit Types (h : list (string * list HealingResult)) (id : string).

Lemma set_set {V} k (v v' : V) (m : list (string * V)) :
  JSMap.set k v (JSMap.set k v' m) = JSMap.set k v m.
Proof.
  induction m as [|[k0 v0] m IH]; simpl.
  - by rewrite decide_True.
  - case_decide; simpl; [by rewrite decide_True|].
    rewrite decide_False by done. by rewrite IH.
Qed.

(** For a new id the storing step is the shared insertion pattern with
    a one-element array. *)
Lemma record_fresh max id r h :
  JSMap.get id h = None → record max id r h = JSMap.put_bounded max id [r] h.
Proof.
  intros Hid. unfold record, JSMap.put_bounded, JSMap.has. rewrite Hid.
  rewrite get_set_eq. simpl. by rewrite set_set.
Qed.

Lemma record_size max id r h :
  JSMap.size h ≤ max → JSMap.size (record max id r h) ≤ max.
Proof.
  intros Hm. destruct (JSMap.get id h) as [rs|] eqn:Hid.
  - unfold record, JSMap.has. rewrite Hid. simpl. rewrite Hid.
    pose proof (length_set id (rs ++ [r]) h) as Hl.
    unfold JSMap.has in Hl. rewrite Hid in Hl.
    unfold JSMap.size in *. rewrite Hl.
    destruct (Z.ltb_spec max (Z.of_nat (length h))); [lia|]. by rewrite Hl.
  - rewrite record_fresh by done. by apply put_bounded_size.
Qed.

Lemma record_all_size max results h :
  JSMap.size h ≤ max → JSMap.size (record_all max results h) ≤ max.
Proof.
  revert h. induction results as [|[k r] results IH]; intros h Hm; simpl; [done|].
  apply IH. by apply record_size.
Qed.

Lemma record_all_distinct max results h :
  NoDup (JSMap.keys (h ++ (single <$> results))) → JSMap.size h ≤ max →
  record_all max results h = JSMap.put_all max (single <$> results) h.
Proof.
  revert h. induction results as [|[k r] results IH]; intros h Hnd Hm; simpl; [done|].
  destruct (put_bounded_step max k [r] h (fmap (M:=list) single results) Hnd Hm)
    as (Hk & Hnd' & _).
  rewrite record_fresh by done. apply IH; [done|]. by apply put_bounded_size.
Qed.
End history_facts.

(* ===================================================================== *)
(** ** Facts about the scanner and the healer *)
(* ===================================================================== *)

Section healer_facts.
Import Healer.
Variable regexMatch : Regex.regex → string → option (string * list string).
Implicit Types (code language : string) (p : Pattern)
  (rule : ErrorType * Severity * Pattern).

(** The loop with [push] collects the findings of the entries in order. *)
Lemma scanPatterns_omap t sev patterns code :
  scanPatterns regexMatch t sev patterns code =
  omap (emitRule regexMatch code) (rulesOf t sev patterns).
Proof.
  unfold scanPatterns.
  enough (∀ acc, foldl (fun errors pattern =>
                    match regexMatch (regex pattern) code with
                    | Some (first, _) => errors ++ [finding t sev pattern first]
                    | None => errors
                    end) acc patterns
                 = acc ++ omap (emitRule regexMatch code) (rulesOf t sev patterns))
    as H by apply (H []).
  induction patterns as [|p patterns IH]; intros acc; simpl.
  - by rewrite app_nil_r.
  - rewrite IH. unfold emitRule at 2. simpl.
    destruct (regexMatch (regex p) code) as [[first rest]|]; [|done].
    by rewrite <- app_assoc.
Qed.

Lemma scanCode_omap code language :
  scanCode regexMatch code language = omap (emitRule regexMatch code) (rulesFor language).
Proof.
  unfold scanCode, rulesFor, scanSyntaxErrors, scanTypeErrors, scanLogicErrors,
    scanSecurityIssues, scanPerformanceIssues.
  rewrite !omap_app, !scanPatterns_omap. by case_decide.
Qed.

Lemma emitRule_message code rule f :
  emitRule regexMatch code rule = Some f → message f = text rule.2.
Proof.
  unfold emitRule. destruct (regexMatch _ _) as [[first rest]|]; [|done].
  by intros [= <-].
Qed.

(** Among entries with pairwise different messages, the findings that
    carry the message of one entry are the finding of that entry. *)
Lemma filter_message_absent code p rules :
  text p ∉ (fun rule => text rule.2) <$> rules →
  filter (fun f => message f = text p) (omap (emitRule regexMatch code) rules) = [].
Proof.
  induction rules as [|rule rules IH]; simpl; [done|].
  intros Hnot. apply not_elem_of_cons in Hnot as [Hne Hnot].
  destruct (emitRule regexMatch code rule) as [f|] eqn:Hf; [|by apply IH].
  rewrite filter_cons_False; [by apply IH|].
  rewrite (emitRule_message _ _ _ Hf). congruence.
Qed.

Lemma filter_message_unique code rule rules :
  NoDup ((fun rule => text rule.2) <$> rules) → rule ∈ rules →
  filter (fun f => message f = text rule.2) (omap (emitRule regexMatch code) rules) =
  option_list (emitRule regexMatch code rule).
Proof.
  induction rules as [|rule' rules IH]; simpl.
  - intros _ Hin. by apply elem_of_nil in Hin.
  - intros Hnd Hin. apply NoDup_cons in Hnd as [Hfirst Hnd].
    apply elem_of_cons in Hin as [<-|Hin].
    + destruct (emitRule regexMatch code rule) as [f|] eqn:Hf; simpl.
      * rewrite filter_cons_True by (by apply (emitRule_message code)).
        by rewrite filter_message_absent.
      * by rewrite filter_message_absent.
    + assert (text rule'.2 ≠ text rule.2) as Hne.
      { intros Heq. apply Hfirst. rewrite Heq.
        by apply (list_elem_of_fmap_2 (fun rule => text rule.2)). }
      destruct (emitRule regexMatch code rule') as [f|] eqn:Hf; [|by apply IH].
      rewrite filter_cons_False; [by apply IH|].
      rewrite (emitRule_message _ _ _ Hf). congruence.
Qed.

Lemma rulesFor_NoDup language :
  NoDup ((fun rule => text rule.2) <$> rulesFor language).
Proof.
  unfold rulesFor. case_decide; refine (bool_decide_unpack _ _); by vm_compute.
Qed.

(** For "typescript" the scan goes through all five tables. *)
Lemma rulesFor_typescript :
  rulesFor "typescript" = groups ≫= (fun g => rulesOf g.1.1 g.1.2 g.2).
Proof. reflexivity. Qed.

(** The entries of the tables and the entries a scan goes through. *)
Lemma rulesFor_elem language t sev table p :
  (t, sev, table) ∈ groups → p ∈ table →
  if decide (t = type ∧ language ≠ "typescript")
  then text p ∉ (fun rule => text rule.2) <$> rulesFor language
  else (t, sev, p) ∈ rulesFor language.
Proof.
  intros Hg Hp.
  pose proof (list_elem_of_fmap_2 (fun q => (t, sev, q)) table p Hp) as Hrule.
  fold (rulesOf t sev table) in Hrule.
  unfold groups in Hg. rewrite !elem_of_cons in Hg.
  unfold rulesFor.
  destruct Hg as [Hg|[Hg|[Hg|[Hg|[Hg|Hg]]]]];
    [injection Hg as -> -> ->..|by apply elem_of_nil in Hg].
  - rewrite decide_False by (by intros [? _]). rewrite !elem_of_app. auto.
  - destruct (decide (language = "typescript")) as [Hl|Hl].
    + rewrite decide_False by (by intros [_ ?]). rewrite !elem_of_app. auto.
    + rewrite decide_True by done. clear Hrule.
      unfold typePatterns in Hp. rewrite !elem_of_cons in Hp.
      destruct Hp as [->|[->|[->|Hp]]]; [..|by apply elem_of_nil in Hp];
        refine (bool_decide_unpack _ _); by vm_compute.
  - rewrite decide_False by (by intros [? _]). rewrite !elem_of_app. auto.
  - rewrite decide_False by (by intros [? _]). rewrite !elem_of_app. auto.
  - rewrite decide_False by (by intros [? _]). rewrite !elem_of_app. auto 6.
Qed.

(** C8. For every input string and every pattern of the five tables,
    [scanCode] reports no finding for the pattern when it has no match in
    the string, and exactly one when it has (however many matches there
    are): the finding with the message of the pattern, the category and
    the severity of its table, and the first matched substring. The
    patterns of the type table are applied only for the language
    "typescript". *)
Theorem scanCode_one_finding_per_pattern code language t sev table p :
  (t, sev, table) ∈ groups → p ∈ table →
  filter (fun f => message f = text p) (scanCode regexMatch code language) =
    if decide (t = type ∧ language ≠ "typescript") then []
    else match regexMatch (regex p) code with
         | Some (first, _) =>
             [{| kind := t; severity := sev; line := None; column := None;
                 message := text p; code := first; suggestion := None |}]
         | None => []
         end.
Proof.
  intros Hg Hp. pose proof (rulesFor_elem language t sev table p Hg Hp) as Hin.
  rewrite scanCode_omap. case_decide.
  - by apply filter_message_absent.
  - rewrite (filter_message_unique code (t, sev, p))
      by (done || apply rulesFor_NoDup).
    unfold emitRule. simpl. by destruct (regexMatch _ _) as [[first rest]|].
Qed.

(** Conversely, every finding of a scan is the finding of an entry of
    one of the five tables whose pattern matched, and of the type table
    only for "typescript". *)
Lemma scanCode_finding_origin code language f :
  f ∈ scanCode regexMatch code language →
  ∃ t sev table p first rest,
    (t, sev, table) ∈ groups ∧ p ∈ table
    ∧ regexMatch (regex p) code = Some (first, rest)
    ∧ f = finding t sev p first
    ∧ (t = type → language = "typescript").
Proof.
  rewrite scanCode_omap. intros Hf.
  apply list_elem_of_omap in Hf as ([[t sev] p] & Hrule & Hemit).
  unfold emitRule in Hemit. simpl in Hemit.
  destruct (regexMatch (regex p) code) as [[first rest]|] eqn:Hm; [|done].
  injection Hemit as <-.
  assert (∀ t' sev' table', (t, sev, p) ∈ rulesOf t' sev' table' →
            t = t' ∧ sev = sev' ∧ p ∈ table') as Hin.
  { intros t' sev' table' H. unfold rulesOf in H.
    apply list_elem_of_fmap in H as (q & [= -> -> ->] & Hq). done. }
  unfold rulesFor in Hrule. rewrite !elem_of_app in Hrule. unfold groups.
  destruct Hrule as [H|[H|[H|[H|H]]]].
  - apply Hin in H as (-> & -> & Hp).
    exists syntax, high, syntaxPatterns, p, first, rest.
    repeat split; [repeat constructor | done..].
  - destruct (decide (language = "typescript")) as [Hl|Hl];
      [|by apply elem_of_nil in H].
    apply Hin in H as (-> & -> & Hp).
    exists type, medium, typePatterns, p, first, rest.
    repeat split; [repeat constructor | done..].
  - apply Hin in H as (-> & -> & Hp).
    exists logic, high, logicPatterns, p, first, rest.
    repeat split; [repeat constructor | done..].
  - apply Hin in H as (-> & -> & Hp).
    exists security, critical, securityPatterns, p, first, rest.
    repeat split; [repeat constructor | done..].
  - apply Hin in H as (-> & -> & Hp).
    exists performance, low, performancePatterns, p, first, rest.
    repeat split; [repeat constructor | done..].
Qed.

(** Without findings [healCode] returns at once. *)
Lemma healCode_clean h env code language :
  scanCode regexMatch code language = [] →
  (healCode regexMatch h env code language).2 =
  {| original := code; healed := code; errorsFound := [];
     errorsFix := 0; confidence := 1; timestamp := now env 1 |}.
Proof. intros Hs. unfold healCode. rewrite Hs. done. Qed.

(** With findings the result keeps the input and the findings, takes its
    confidence from [validateCode] on the healed text, and is stored. *)
Lemma healCode_findings h env code language :
  scanCode regexMatch code language ≠ [] →
  let r := (healCode regexMatch h env code language).2 in
  original r = code
  ∧ errorsFound r = scanCode regexMatch code language
  ∧ confidence r = validateCode regexMatch (healed r) language
  ∧ healingHistory (healCode regexMatch h env code language).1 =
    record maxHistory (new_id env) r (healingHistory h).
Proof.
  intros Hs. unfold healCode.
  rewrite decide_False by (by destruct (scanCode regexMatch code language)).
  by destruct (foldl _ _ _) as [[healed fixedCount] k].
Qed.


(** C7. When the scanner has no finding for the code, [healCode] returns
    the code unchanged as original and healed, with no findings, zero
    fixes and confidence 1. When it has findings, the confidence of the
    result is 1 if scanning the healed code finds nothing, and
    max(0, 1 - n * 0.1) for [n] remaining findings otherwise. *)
Theorem healCode_confidence h env code language :
  (scanCode regexMatch code language = [] →
     (healCode regexMatch h env code language).2 =
     {| original := code; healed := code; errorsFound := [];
        errorsFix := 0; confidence := 1; timestamp := now env 1 |})
  ∧ (scanCode regexMatch code language ≠ [] →
     let r := (healCode regexMatch h env code language).2 in
     let remaining := length (scanCode regexMatch (healed r) language) in
     original r = code
     ∧ confidence r =
       if decide (remaining = 0%nat) then 1%Q
       else Qmax 0 (1 - inject_Z (Z.of_nat remaining) * (1 # 10))).
Proof.
  split; [apply healCode_clean|].
  intros Hs. destruct (healCode_findings h env code language Hs) as (Ho & _ & Hc & _).
  simpl. split; [done|]. rewrite Hc. reflexivity.
Qed.
End healer_facts.

Lemma scanCode_one_finding_per_pattern_witness :
  filter (fun f => Healer.message f = "Condition always true")
         (Healer.scanCode Regex.exec "if (true) { a(); } if (true) { b(); }" "typescript")
  = [{| Healer.kind := Healer.logic; Healer.severity := Healer.high;
        Healer.line := None; Healer.column := None;
        Healer.message := "Condition always true"; Healer.code := "if (true)";
        Healer.suggestion := None |}].
Proof.
  pose proof (scanCode_one_finding_per_pattern Regex.exec
                "if (true) { a(); } if (true) { b(); }" "typescript"
                Healer.logic Healer.high Healer.logicPatterns
                (hd {| Healer.regex := []; Healer.text := "" |} Healer.logicPatterns))
    as H.
  refine (H _ _).
  - vm_compute. do 2 right. left.
  - vm_compute. left.
Defined.

Lemma healCode_confidence_witness :
  Healer.confidence
    (Healer.healCode Regex.exec Healer.create
       (Samples.healEnv (Healer.AIResponse (Some Samples.clean)))
       Samples.risky "typescript").2 = 1%Q
  ∧ Healer.healed
      (Healer.healCode Regex.exec Healer.create (Samples.healEnv Healer.AIThrew)
         Samples.clean "typescript").2 = Samples.clean.
Proof.
  split.
  - refine (proj2 (proj2 (healCode_confidence Regex.exec Healer.create
             (Samples.healEnv (Healer.AIResponse (Some Samples.clean)))
             Samples.risky "typescript") _)).
    vm_compute. discriminate.
  - rewrite (proj1 (healCode_confidence Regex.exec Healer.create
               (Samples.healEnv Healer.AIThrew) Samples.clean "typescript"));
      [reflexivity | vm_compute; reflexivity].
Defined.

(* ===================================================================== *)
(** ** The capacity of the three stores *)
(* ===================================================================== *)

Section store_runs.
Context {S C V : Type}.
Variables (contents : S → list (string * V)) (step : S → C → S).
Variables (key : C → string) (stored : C → Prop) (max : Z).
Hypothesis step_stores :
  ∀ s c, stored c → JSMap.get (key c) (contents s) = None →
         ∃ v, contents (step s c) = JSMap.put_bounded max (key c) v (contents s).




End store_runs.

Section capacity.
Import GeneratorQueries HealerQueries.
Variable regexMatch : Regex.regex → string → option (string * list string).
Variable content :
  Generator.ProjectRequirement → Generator.TechStack → string → string.




End capacity.

Section capacity_witness.
Import Runs.



End capacity_witness.

(* ===================================================================== *)
(** ** Facts about the monetization ledger *)
(* ===================================================================== *)

Section ledger_facts.
Import Monetization.
Context {N : Type} `{!Number N}.
Implicit Types (e : Engine N) (t : Template N).

Lemma create_wf : wf (create (N:=N)).
Proof. intros k r. done. Qed.

Lemma alloc_wf e t : wf e → wf (alloc t e).1.
Proof.
  intros Hwf k r Hk. simpl in *. rewrite lookup_insert.
  case_decide; [by eexists | by apply (Hwf k)].
Qed.

Lemma publishTemplate_wf e r : wf e → wf (publishTemplate e r).1.
Proof.
  intros Hwf. unfold publishTemplate.
  destruct (objects e !! r) as [t|] eqn:Hr; [|done].
  intros k r'. simpl. destruct (decide (id t = k)) as [<-|Hne].
  - rewrite get_set_eq. intros [= <-]. by rewrite Hr.
  - rewrite get_set_ne by done. apply Hwf.
Qed.

Lemma purchaseTemplate_wf e templateId buyerId :
  wf e → wf (purchaseTemplate e templateId buyerId).1.
Proof.
  intros Hwf. unfold purchaseTemplate.
  destruct (JSMap.get templateId (templates e)) as [r|]; [|done].
  destruct (objects e !! r) as [t|]; [|done].
  intros k r' Hk. simpl in *. rewrite lookup_insert.
  case_decide; [by eexists | by apply (Hwf k)].
Qed.

(** In a well-formed ledger an id is unknown exactly when it has no
    entry in [templates]. *)
Lemma lookup_None e templateId :
  wf e → lookup e templateId = None ↔ JSMap.get templateId (templates e) = None.
Proof.
  intros Hwf. unfold lookup.
  destruct (JSMap.get templateId (templates e)) as [r|] eqn:Hr; simpl; [|done].
  destruct (Hwf _ _ Hr) as [t Ht]. rewrite Ht. done.
Qed.

(** [purchaseTemplate] on a known id, step by step. *)
Lemma purchaseTemplate_known e templateId buyerId r t :
  JSMap.get templateId (templates e) = Some r → objects e !! r = Some t →
  purchaseTemplate e templateId buyerId =
  ({| objects := <[r := purchased t]> (objects e);
      templates := templates e;
      revenue := plus (revenue e) (price t);
      emitted := emitted e ++ [template_purchased templateId buyerId (price t)] |},
   true).
Proof. intros Hr Ht. unfold purchaseTemplate. by rewrite Hr, Ht. Qed.
End ledger_facts.

Section ledger_doubles.
Import PrimFloat Monetization.
Implicit Types (e : Engine float) (t : Template float).

(** C6, the claim as stated fails: the counters are doubles. In a
    ledger whose revenue is 2^53, a purchase of a template of price 1
    that has been bought 2^53 times returns true and leaves both the
    download counter and the revenue where they were. *)
Lemma purchaseTemplate_counters_stuck :
  let call := purchaseTemplate Doubles.busy "tpl-7" "bob" in
  call.2 = true
  ∧ price <$> lookup Doubles.busy "tpl-7" = Some 1%float
  ∧ downloads <$> lookup Doubles.busy "tpl-7" = Some 9007199254740992%float
  ∧ downloads <$> lookup call.1 "tpl-7" = Some 9007199254740992%float
  ∧ revenue Doubles.busy = 9007199254740992%float
  ∧ revenue call.1 = 9007199254740992%float.
Proof. vm_compute. repeat split; reflexivity. Qed.

(** C6 (amended). [purchaseTemplate] on an unknown id returns false and
    changes nothing: the revenue and every stored template are as
    before. On a known id it returns true, the download counter of that
    template becomes [downloads + 1] and the revenue [revenue + price],
    both sums taken in the doubles of the program (so rounded to the
    nearest double), and the other fields of the template are kept. *)
Theorem purchaseTemplate_spec e templateId buyerId :
  wf e →
  (lookup e templateId = None →
     purchaseTemplate e templateId buyerId = (e, false))
  ∧ (∀ t, lookup e templateId = Some t →
       let e' := (purchaseTemplate e templateId buyerId).1 in
       (purchaseTemplate e templateId buyerId).2 = true
       ∧ (∃ t', lookup e' templateId = Some t'
                ∧ downloads t' = (downloads t + 1)%float
                ∧ (id t', name t', description t', price t', creator t',
                   rating t', code t')
                  = (id t, name t, description t, price t, creator t,
                     rating t, code t))
       ∧ revenue e' = (revenue e + price t)%float
       ∧ templates e' = templates e).
Proof.
  intros Hwf. split.
  - intros Hnone. apply (lookup_None _ _ Hwf) in Hnone.
    unfold purchaseTemplate. by rewrite Hnone.
  - intros t Ht. unfold lookup in Ht.
    destruct (JSMap.get templateId (templates e)) as [r|] eqn:Hr; [|done].
    simpl in Ht. rewrite (purchaseTemplate_known e templateId buyerId r t Hr Ht).
    unfold lookup. simpl. rewrite Hr. simpl.
    rewrite lookup_insert_eq. split; [done|]. split; [|done].
    by exists (purchased t).
Qed.

Lemma purchaseTemplate_spec_witness :
  (purchaseTemplate Doubles.shop "tpl-9" "bob").2 = false
  ∧ (purchaseTemplate Doubles.shop "tpl-1" "bob").2 = true
  ∧ revenue (purchaseTemplate Doubles.shop "tpl-1" "bob").1 = 10.5%float
  ∧ downloads <$> lookup (purchaseTemplate Doubles.shop "tpl-1" "bob").1 "tpl-1"
    = Some 1%float.
Proof.
  assert (wf Doubles.shop) as Hwf.
  { unfold Doubles.shop, Doubles.publish. apply (publishTemplate_wf _ _).
    intros k r. simpl. done. }
  destruct (purchaseTemplate_spec Doubles.shop "tpl-9" "bob" Hwf) as [Hno _].
  destruct (purchaseTemplate_spec Doubles.shop "tpl-1" "bob" Hwf) as [_ Hyes].
  split; [by rewrite (Hno eq_refl)|].
  destruct (Hyes (Doubles.kit "tpl-1" 10.5 0) eq_refl)
    as (Htrue & (t' & Hl & Hd & _) & Hrev & _).
  split; [exact Htrue|]. split; [exact Hrev|].
  rewrite Hl. simpl. by rewrite Hd.
Defined.
End ledger_doubles.

(* ===================================================================== *)
(** ** Runs of the deployment engine, and the scanner on sample texts *)
(* ===================================================================== *)

Section deployment_runs.
Import Deployment.
Implicit Types (e : Engine) (env : Env) (cfg : DeploymentConfig).

(** The result of a call depends on the engine through its tokens only,
    and a call leaves the tokens as they are. *)
Lemma deploy_result_tokens e1 e2 env cfg :
  vercelToken e1 = vercelToken e2 → githubToken e1 = githubToken e2 →
  (deploy e1 env cfg).2 = (deploy e2 env cfg).2.
Proof.
  intros Hv Hg.
  assert (dispatch e1 env cfg = dispatch e2 env cfg) as Hd.
  { unfold dispatch, deployToVercel, deployToGitHub. by rewrite Hv, Hg. }
  unfold deploy. rewrite !dispatch_emit, Hd.
  by destruct (dispatch e2 env cfg).
Qed.

Lemma deploy_tokens e env cfg :
  vercelToken (deploy e env cfg).1 = vercelToken e
  ∧ githubToken (deploy e env cfg).1 = githubToken e.
Proof.
  unfold deploy. rewrite dispatch_emit.
  destruct (dispatch e env cfg) as [msg|r0]; [done|]. simpl.
  by destruct (success r0).
Qed.

Lemma deploy_all_stored calls e :
  Forall (fun c => target c.2 ∈ targets) calls →
  deployments (deploy_all calls e) =
  JSMap.put_all maxDeployments (recordsOf e calls) (deployments e).
Proof.
  revert e. induction calls as [|[env cfg] calls IH]; intros e Hs; simpl; [done|].
  apply Forall_cons in Hs as [Hc Hs]. simpl in Hc.
  destruct (dispatch_supported e env cfg Hc) as [r0 Hd].
  destruct (deploy_returned _ _ _ _ Hd) as [Hr He].
  destruct (deploy_tokens e env cfg) as [Hv Hg].
  rewrite IH by done. rewrite He, <- Hr. f_equal.
  unfold recordsOf. apply list_fmap_ext. intros i [env' cfg'] _. simpl.
  f_equal. by apply deploy_result_tokens.
Qed.

(** 5001 calls with supported targets and distinct ids on a new engine:
    5000 records are left and the first id is gone. *)
Lemma deploy_all_overflow vercel github calls :
  Forall (fun c => target c.2 ∈ targets) calls →
  NoDup ((fun c => new_id c.1) <$> calls) →
  Z.of_nat (length calls) = 5001 →
  let e := deploy_all calls (create vercel github) in
  JSMap.size (deployments e) = 5000
  ∧ ∀ c, head calls = Some c → getDeployment e (new_id c.1) = None.
Proof.
  intros Hs Hnd Hlen e. subst e. unfold getDeployment.
  rewrite deploy_all_stored by done.
  set (recs := recordsOf (create vercel github) calls).
  assert (JSMap.keys recs = (fun c => new_id c.1) <$> calls) as Hkeys.
  { unfold recs, recordsOf, JSMap.keys. rewrite <- list_fmap_compose. done. }
  assert (length recs = length calls) as Hl by apply length_fmap.
  unfold create; simpl.
  rewrite put_all_distinct; simpl.
  - unfold JSMap.empty, JSMap.size, maxDeployments. simpl. rewrite Hl.
    replace (Z.to_nat _) with 1%nat by lia. split.
    + rewrite length_drop. lia.
    + intros c Hc. apply get_None_keys.
      assert (NoDup (JSMap.keys recs)) as Hnd' by (by rewrite Hkeys).
      destruct calls as [|c' calls]; simplify_eq/=.
      unfold JSMap.keys in *. simpl in *.
      by apply NoDup_cons in Hnd' as [? _].
  - by rewrite Hkeys.
  - unfold JSMap.size, maxDeployments. simpl. lia.
Qed.
End deployment_runs.

(** The two sample scans of the specification, with the reference
    implementation of the matcher. *)
Example scan_condition_always_true :
  Healer.scanCode Regex.exec "if (true) { doStuff(); }" "typescript"
  = [{| Healer.kind := Healer.logic; Healer.severity := Healer.high;
        Healer.line := None; Healer.column := None;
        Healer.message := "Condition always true"; Healer.code := "if (true)";
        Healer.suggestion := None |}].
Proof. by vm_compute. Qed.

Example scan_eval :
  Healer.scanCode Regex.exec "eval(x)" "typescript"
  = [{| Healer.kind := Healer.security; Healer.severity := Healer.critical;
        Healer.line := None; Healer.column := None;
        Healer.message := "eval() is dangerous"; Healer.code := "eval(";
        Healer.suggestion := None |}].
Proof. by vm_compute. Qed.

(** The type table is skipped for another language. *)
Example scan_any_javascript :
  (Healer.message <$> Healer.scanCode Regex.exec "let x: any = y as T" "typescript",
   Healer.message <$> Healer.scanCode Regex.exec "let x: any = y as T" "javascript")
  = (["Use of " +:+ String Regex.dquote "any" +:+ String Regex.dquote " type detected";
      "Type assertion used - consider better typing"], []).
Proof. by vm_compute. Qed.

(** A healing run: the service rewrites the text once, the second
    request returns the same text, and the rescan is clean. *)
Example heal_risky :
  let r := (Healer.healCode Regex.exec Healer.create
              (Samples.healEnv (Healer.AIResponse (Some Samples.clean)))
              Samples.risky "typescript").2 in
  (Healer.healed r, Healer.errorsFix r, length (Healer.errorsFound r),
   Healer.confidence r)
  = (Samples.clean, 1, 2%nat, 1%Q).
Proof. by vm_compute. Qed.


(* ===================================================================== *)
(** ** More about the deployment engine *)
(* ===================================================================== *)

Section deployment_more.
Import Deployment DeploymentQueries.
Implicit Types (e : Engine) (env : Env) (cfg : DeploymentConfig).

Lemma absent_false token : token ≠ "" → absent token = false.
Proof. intros H. unfold absent. by rewrite bool_decide_eq_false_2. Qed.

Lemma absent_true_inv token : absent token = true → token = "".
Proof. unfold absent. by intros H%bool_decide_eq_true_1. Qed.

(** The success flag of the value the [switch] returns. *)
Lemma dispatch_success e env cfg r0 :
  dispatch e env cfg = inr r0 →
  success r0 = true ↔ (∃ u i, external env = Returned u i) ∧ authorised e cfg.
Proof.
  unfold dispatch, authorised. intros Hd.
  repeat case_decide; simplify_eq.
  - unfold deployToVercel. destruct (absent (vercelToken e)) eqn:Ha.
    + apply absent_true_inv in Ha. simpl. split; [done|].
      intros [_ [[_ ?]|[[? _]|[?|?]]]]; congruence.
    + destruct (external env) as [msg|u i]; simpl.
      * split; [done | by intros [(? & ? & ?) _]].
      * split; [|done]. intros _. split; [eauto|]. left. split; [done|].
        intros Hk. rewrite Hk in Ha. done.
  - unfold deployToGitHub. destruct (absent (githubToken e)) eqn:Ha.
    + apply absent_true_inv in Ha. simpl. split; [done|].
      intros [_ [[? _]|[[_ ?]|[?|?]]]]; congruence.
    + destruct (external env) as [msg|u i]; simpl.
      * split; [done | by intros [(? & ? & ?) _]].
      * split; [|done]. intros _. split; [eauto|]. right. left. split; [done|].
        intros Hk. rewrite Hk in Ha. done.
  - unfold deployToDocker. destruct (external env) as [msg|u i]; simpl.
    + split; [done | by intros [(? & ? & ?) _]].
    + split; [|done]. intros _. split; [eauto|]. auto.
  - unfold deployToAWS. destruct (external env) as [msg|u i]; simpl.
    + split; [done | by intros [(? & ? & ?) _]].
    + split; [|done]. intros _. split; [eauto|]. auto.
Qed.

Lemma authorised_supported e cfg : authorised e cfg → target cfg ∈ targets.
Proof.
  unfold authorised, targets.
  intros [[-> _]|[[-> _]|[->| ->]]]; repeat constructor.
Qed.

(** X1. A call of [deploy] succeeds exactly when the target is one of
    the four, the token it needs is set, and the external steps all
    return. *)
Theorem deploy_success_iff e env cfg :
  success (deploy e env cfg).2 = true
  ↔ (∃ u i, external env = Returned u i) ∧ authorised e cfg.
Proof.
  destruct (dispatch e env cfg) as [msg|r0] eqn:Hd.
  - destruct (deploy_threw _ _ _ _ Hd) as [-> _]. simpl. split; [done|].
    intros [_ Ha]. apply authorised_supported in Ha.
    destruct (dispatch_supported e env cfg Ha) as [r0 Hr0]. congruence.
  - destruct (deploy_returned _ _ _ _ Hd) as [-> _]. simpl.
    by apply dispatch_success.
Qed.

Lemma prefix_refl msg : String.prefix msg msg = true.
Proof.
  induction msg as [|c msg IH]; simpl; [done|].
  by destruct (ascii_dec c c).
Qed.

Lemma includes_suffix p msg : includes (p +:+ msg) msg = true.
Proof.
  induction p as [|c p IH].
  - change (EmptyString +:+ msg) with msg.
    destruct msg as [|c msg]; [done|].
    unfold includes. by rewrite prefix_refl.
  - change (String c p +:+ msg) with (String c (p +:+ msg)).
    simpl. rewrite IH. by destruct (match msg with EmptyString => _ | _ => _ end).
Qed.

(** X2. When an external step of a supported, authorised deployment
    throws, [deploy] does not throw: it returns a result with [success]
    false whose log is a label of the target followed by the message of
    the exception, and stores that result like any other. *)
Theorem deploy_external_failure e env cfg msg :
  authorised e cfg → external env = Threw msg →
  JSMap.size (deployments e) ≤ maxDeployments →
  let r := (deploy e env cfg).2 in
  success r = false
  ∧ (∃ label, logs r = Some (label +:+ msg)
              ∧ label ∈ ["Vercel deployment failed: "; "GitHub deployment failed: ";
                         "Docker deployment failed: "; "AWS deployment failed: "])
  ∧ (∃ l, logs r = Some l ∧ includes l msg = true)
  ∧ getDeployment (deploy e env cfg).1 (new_id env) = Some r.
Proof.
  intros Ha Hx Hm r. subst r.
  pose proof (authorised_supported _ _ Ha) as Ht.
  destruct (dispatch_supported e env cfg Ht) as [r0 Hd].
  destruct (deploy_returned _ _ _ _ Hd) as [Hr Hdep]. simpl in Hr, Hdep.
  assert (getDeployment (deploy e env cfg).1 (new_id env)
          = Some (deploy e env cfg).2) as Hget.
  { unfold getDeployment. rewrite Hdep, Hr.
    apply get_put_bounded; [by unfold maxDeployments | done]. }
  assert (success r0 = false ∧
          ∃ label, logs r0 = Some (label +:+ msg)
                   ∧ label ∈ ["Vercel deployment failed: "; "GitHub deployment failed: ";
                              "Docker deployment failed: "; "AWS deployment failed: "])
    as (Hs & label & Hl & Hlabel).
  { unfold dispatch in Hd. unfold authorised in Ha.
    destruct Ha as [[Hc Hk]|[[Hc Hk]|[Hc|Hc]]]; rewrite Hc in Hd; simpl in Hd;
      injection Hd as <-.
    - unfold deployToVercel. rewrite absent_false, Hx by done. simpl.
      split; [done|]. eexists; split; [done|]. repeat constructor.
    - unfold deployToGitHub. rewrite absent_false, Hx by done. simpl.
      split; [done|]. eexists; split; [done|]. repeat constructor.
    - unfold deployToDocker. rewrite Hx. simpl.
      split; [done|]. eexists; split; [done|]. repeat constructor.
    - unfold deployToAWS. rewrite Hx. simpl.
      split; [done|]. eexists; split; [done|]. repeat constructor. }
  rewrite Hr in *. simpl. split; [done|]. split; [eauto|]. split; [|done].
  exists (label +:+ msg). split; [done|]. apply includes_suffix.
Qed.

Lemma deploy_external_failure_witness :
  let call := deploy Samples.keyed (Samples.deployEnv "dep-1" (Threw "ECONNRESET"))
                     (Samples.config "vercel") in
  success call.2 = false ∧ getDeployment call.1 "dep-1" = Some call.2.
Proof.
  assert (authorised Samples.keyed (Samples.config "vercel")) as Ha
    by (left; split; [reflexivity | vm_compute; discriminate]).
  assert (JSMap.size (deployments Samples.keyed) ≤ maxDeployments) as Hm
    by (vm_compute; discriminate).
  destruct (deploy_external_failure Samples.keyed
              (Samples.deployEnv "dep-1" (Threw "ECONNRESET"))
              (Samples.config "vercel") "ECONNRESET" Ha eq_refl Hm)
    as (Hs & _ & _ & Hget).
  split; [exact Hs | exact Hget].
Defined.

(** X3. Every call of [deploy] emits exactly two events: first
    [deployment-started] with the new id, the project name and the
    target, then one event that matches the result: [deployment-success]
    (with its url and duration) for a successful result,
    [deployment-failed] (with its log) for a failed result of a known
    target, [deployment-error] for an unknown target. *)
Theorem deploy_events e env cfg :
  emitted (deploy e env cfg).1 =
  emitted e ++ [deployment_started (new_id env) (projectName cfg) (target cfg);
                report cfg (new_id env) (deploy e env cfg).2].
Proof.
  unfold report. destruct (dispatch e env cfg) as [msg|r0] eqn:Hd.
  - assert (target cfg ∉ targets) as Ht.
    { intros Ht. destruct (dispatch_supported e env cfg Ht) as [r0 Hr0]. congruence. }
    rewrite bool_decide_eq_false_2 by done.
    rewrite (dispatch_unsupported e env cfg Ht) in Hd. injection Hd as <-.
    unfold deploy. rewrite dispatch_emit, (dispatch_unsupported e env cfg Ht).
    simpl. by rewrite <- app_assoc.
  - assert (target cfg ∈ targets) as Ht.
    { destruct (decide (target cfg ∈ targets)) as [|Hn]; [done|].
      rewrite (dispatch_unsupported e env cfg Hn) in Hd. done. }
    rewrite bool_decide_eq_true_2 by done.
    unfold deploy. rewrite dispatch_emit, Hd. simpl.
    destruct (success r0); simpl; by rewrite <- app_assoc.
Qed.

Lemma get_tail_other {V} k (m : list (string * V)) :
  JSMap.first_key m ≠ Some k → JSMap.get k (tail m) = JSMap.get k m.
Proof.
  destruct m as [|[k' v'] m]; [done|]. unfold JSMap.first_key. simpl.
  intros Hk. rewrite decide_False; [done | congruence].
Qed.

Lemma first_key_set {V} k (v : V) (m : list (string * V)) :
  m ≠ [] → JSMap.first_key (JSMap.set k v m) = JSMap.first_key m.
Proof.
  destruct m as [|[k' v'] m]; [done|]. intros _. unfold JSMap.first_key. simpl.
  by case_decide.
Qed.

(** A stored record under another key survives an insertion unless it
    is the oldest one. *)
Lemma get_put_bounded_other {V} max k k' (v : V) (m : list (string * V)) :
  k ≠ k' → JSMap.first_key m ≠ Some k' →
  JSMap.get k' (JSMap.put_bounded max k v m) = JSMap.get k' m.
Proof.
  intros Hne Hfirst. rewrite put_bounded_unfold.
  destruct (max <? JSMap.size (JSMap.set k v m)); [|by apply get_set_ne].
  destruct m as [|kv m]; [done|].
  rewrite get_tail_other; [by apply get_set_ne|].
  by rewrite first_key_set.
Qed.

(** X4. A call of [deploy] leaves every other stored deployment as it
    is, except possibly the oldest one: for an id that is neither the new
    id nor the first key of the store, [getDeployment] returns after the
    call what it returned before. *)
Theorem deploy_keeps_others e env cfg id :
  id ≠ new_id env → JSMap.first_key (deployments e) ≠ Some id →
  getDeployment (deploy e env cfg).1 id = getDeployment e id.
Proof.
  intros Hid Hfirst. unfold getDeployment.
  destruct (dispatch e env cfg) as [msg|r0] eqn:Hd.
  - by destruct (deploy_threw _ _ _ _ Hd) as [_ ->].
  - destruct (deploy_returned _ _ _ _ Hd) as [_ ->].
    by apply get_put_bounded_other.
Qed.

Lemma deploy_keeps_others_witness :
  let e1 := (deploy Samples.bare (Samples.deployEnv "dep-1" Samples.done)
                    (Samples.config "aws")).1 in
  let e2 := (deploy e1 (Samples.deployEnv "dep-2" Samples.done)
                    (Samples.config "docker")).1 in
  let e3 := (deploy e2 (Samples.deployEnv "dep-3" Samples.done)
                    (Samples.config "aws")).1 in
  getDeployment e3 "dep-2" = getDeployment e2 "dep-2".
Proof.
  intros e1 e2 e3.
  apply (deploy_keeps_others e2 (Samples.deployEnv "dep-3" Samples.done)
           (Samples.config "aws") "dep-2"); vm_compute; discriminate.
Defined.

(** A part of a positive whole, as a fraction. *)
Lemma ratio_range (s n : Z) :
  0 ≤ s ≤ n → 0 < n →
  (0 <= inject_Z s / inject_Z n)%Q ∧ (inject_Z s / inject_Z n <= 1)%Q.
Proof.
  intros Hs Hn.
  assert (0 < inject_Z n)%Q as Hq
    by (change (inject_Z 0 < inject_Z n)%Q; by rewrite <- Zlt_Qlt).
  split.
  - apply Qle_shift_div_l; [done|]. rewrite Qmult_0_l.
    change (inject_Z 0 <= inject_Z s)%Q. rewrite <- Zle_Qle. lia.
  - apply Qle_shift_div_r; [done|]. rewrite Qmult_1_l.
    rewrite <- Zle_Qle. lia.
Qed.

Lemma percent_range (q : Q) :
  (0 <= q)%Q → (q <= 1)%Q → (0 <= q * 100)%Q ∧ (q * 100 <= 100)%Q.
Proof.
  intros Hlo Hhi. split.
  - apply Qmult_le_0_compat; [done | discriminate].
  - apply Qle_trans with (1 * 100)%Q; [|by vm_compute].
    apply Qmult_le_compat_r; [done | discriminate].
Qed.

(** X5. In every state the success rate [getStatus] reports is a number
    between 0 and 100. *)
Theorem getStatus_rate_range e :
  ∃ q, successRate (getStatus e) = JSNum.Fin q ∧ (0 <= q)%Q ∧ (q <= 100)%Q.
Proof.
  unfold getStatus. simpl.
  set (n := JSMap.size (deployments e)).
  set (s := Z.of_nat (length (filter _ _))).
  assert (0 ≤ s ≤ n) as Hs.
  { subst s n. split; [lia|]. unfold JSMap.size, JSMap.values.
    pose proof (length_filter (fun d => success d = true) (deployments e).*2).
    rewrite length_fmap in *. lia. }
  unfold JSNum.div. destruct (Z.eqb_spec n 0) as [Hn|Hn].
  - assert (s = 0) as -> by lia. simpl. exists 0%Q. by repeat split.
  - destruct (ratio_range s n) as [Hlo Hhi]; [done | lia |].
    destruct (percent_range _ Hlo Hhi) as [Hlo' Hhi'].
    unfold JSNum.mul, JSNum.or. simpl JSNum.truthy.
    destruct (negb _).
    + eexists; split; [done|]. by split.
    + exists 0%Q. by repeat split.
Qed.
(** X21. A call of [deploy] with a target outside the four (the
    default branch of the [switch], which the type [DeploymentTarget]
    rules out) does not throw and stores nothing: it returns a result
    with [success] false and the log "Unknown deployment target: " and
    the target, and leaves the store as it is. *)
Theorem deploy_unknown_target e env cfg :
  target cfg ∉ targets →
  let r := (deploy e env cfg).2 in
  success r = false
  ∧ logs r = Some ("Unknown deployment target: " +:+ target cfg)
  ∧ url r = None
  ∧ deployments (deploy e env cfg).1 = deployments e
  ∧ getDeployment (deploy e env cfg).1 (new_id env) = getDeployment e (new_id env).
Proof.
  intros Ht r. subst r. pose proof (dispatch_unsupported e env cfg Ht) as Hd.
  destruct (deploy_threw _ _ _ _ Hd) as [Hr He].
  unfold getDeployment. by rewrite He, Hr.
Qed.

Lemma deploy_unknown_target_witness :
  let call := deploy Samples.bare (Samples.deployEnv "dep-1" Samples.done)
                     (Samples.config "heroku") in
  logs call.2 = Some "Unknown deployment target: heroku"
  ∧ getDeployment call.1 "dep-1" = None.
Proof.
  assert (target (Samples.config "heroku") ∉ targets) as Ht.
  { intros Hin. vm_compute in Hin.
    repeat (apply elem_of_cons in Hin as [Hin|Hin]; [discriminate Hin|]).
    by apply elem_of_nil in Hin. }
  destruct (deploy_unknown_target Samples.bare
              (Samples.deployEnv "dep-1" Samples.done)
              (Samples.config "heroku") Ht) as (_ & Hl & _ & _ & Hg).
  split; [exact Hl | exact Hg].
Defined.

End deployment_more.

(* ===================================================================== *)
(** ** The project files of a deployment *)
(* ===================================================================== *)

Section project_files.
Import ProjectFiles.

Lemma lastIndexOf_range c s : lastIndexOf c s = -1 ∨ 0 ≤ lastIndexOf c s.
Proof.
  induction s as [|a s IH]; simpl; [by left|].
  destruct (Z.leb_spec 0 (lastIndexOf c s)); [right; lia|].
  case_decide; [by right | by left].
Qed.

Lemma substring0_cons n a s :
  0 ≤ n → substring0 (n + 1) (String a s) = String a (substring0 n s).
Proof.
  intros Hn. unfold substring0.
  replace (Z.to_nat (n + 1)) with (S (Z.to_nat n)) by lia. done.
Qed.

(** The text splits at the last occurrence. *)
Lemma lastIndexOf_split c s :
  0 ≤ lastIndexOf c s →
  ∃ base, s = substring0 (lastIndexOf c s) s +:+ String c base
          ∧ lastIndexOf c base = -1.
Proof.
  induction s as [|a s IH]; simpl; [lia|].
  destruct (Z.leb_spec 0 (lastIndexOf c s)) as [Hlater|Hlater].
  - intros _. destruct (IH Hlater) as (base & Hs & Hbase).
    exists base. split; [|done]. rewrite substring0_cons by done.
    transitivity (String a (substring0 (lastIndexOf c s) s +:+ String c base));
      [by f_equal | done].
  - case_decide as Hc; [|lia]. intros _. subst a. exists s. split.
    + unfold substring0. simpl. by destruct s.
    + destruct (lastIndexOf_range c s); [done | lia].
Qed.

Lemma lastIndexOf_append c p q :
  lastIndexOf c q = -1 →
  lastIndexOf c (p +:+ String c q) = Z.of_nat (String.length p).
Proof.
  intros Hq. induction p as [|a p IH]; simpl.
  - rewrite Hq. simpl. by rewrite decide_True.
  - rewrite IH. destruct (Z.leb_spec 0 (Z.of_nat (String.length p))); lia.
Qed.

Lemma lastIndexOf_found c p q : 0 ≤ lastIndexOf c (p +:+ String c q).
Proof.
  induction p as [|a p IH]; simpl.
  - destruct (Z.leb_spec 0 (lastIndexOf c q)); [lia|]. by rewrite decide_True.
  - destruct (Z.leb_spec 0 (lastIndexOf c (p +:+ String c q))); lia.
Qed.

Lemma substring0_append p q :
  substring0 (Z.of_nat (String.length p)) (p +:+ q) = p.
Proof.
  unfold substring0. rewrite Nat2Z.id.
  induction p as [|a p IH]; simpl; [by destruct q | by rewrite IH].
Qed.

Lemma append_cancel p q1 q2 : p +:+ q1 = p +:+ q2 → q1 = q2.
Proof.
  induction p as [|a p IH]; simpl; [done|]. intros [= H]. by apply IH.
Qed.

(** X6. The directory [createProjectFiles] creates for a file is the
    full path of the file up to its last slash: the full path is that
    directory, a slash, and a last part without slash. For a file path
    without slash the directory is the project path itself. *)
Theorem dirPath_split (projectPath filePath : string) :
  let fullPath := projectPath +:+ "/" +:+ filePath in
  ∃ base, fullPath = dirPath fullPath +:+ "/" +:+ base
          ∧ lastIndexOf "/" base = -1
          ∧ (lastIndexOf "/" filePath = -1 →
             dirPath fullPath = projectPath ∧ base = filePath).
Proof.
  intros fullPath. subst fullPath.
  change ("/" +:+ filePath) with (String "/" filePath).
  pose proof (lastIndexOf_found "/" projectPath filePath) as Hpos.
  destruct (lastIndexOf_split _ _ Hpos) as (base & Hs & Hbase).
  exists base. split; [exact Hs|]. split; [done|].
  intros Hfile. unfold dirPath in *.
  rewrite (lastIndexOf_append _ _ _ Hfile) in *.
  rewrite substring0_append in *. split; [done|].
  symmetry. apply append_cancel in Hs. by injection Hs.
Qed.

Lemma dirPath_split_witness :
  dirPath "/tmp/demo/index.js" = "/tmp/demo"
  ∧ dirPath "/tmp/demo/src/app/main.ts" = "/tmp/demo/src/app".
Proof.
  split; [|reflexivity].
  destruct (dirPath_split "/tmp/demo" "index.js") as (base & _ & _ & H).
  exact (proj1 (H eq_refl)).
Defined.

Lemma shellWord_quoted content rest :
  shellWord true (escapeQuotes content +:+ String Regex.squote rest)
  = (fun s => content +:+ s) <$> shellWord false rest.
Proof.
  induction content as [|c content IH]; simpl.
  - by destruct (shellWord false rest).
  - case_decide as Hc.
    + subst c. unfold escapedQuote. simpl.
      change (EmptyString +:+ escapeQuotes content) with (escapeQuotes content).
      rewrite IH. by destruct (shellWord false rest).
    + simpl. rewrite decide_False by done. rewrite IH.
      by destruct (shellWord false rest).
Qed.

(** X7. The argument [createProjectFiles] gives to [echo] is one word
    for the shell, and that word, read by the quoting rules of the shell
    (single quotes, and a backslash outside them), is the content of the
    file, whatever quotes the content has. *)
Theorem echoArgument_shellWord (content : string) :
  shellWord false (echoArgument content) = Some content.
Proof.
  unfold echoArgument. simpl.
  rewrite shellWord_quoted. simpl.
  f_equal. induction content as [|c content IH]; [done|].
  change (String c content +:+ EmptyString) with (String c (content +:+ EmptyString)).
  by rewrite IH.
Qed.

Section vercel_facts.
Variable base64 : string → string.

Lemma formatFilesForVercel_fold files (acc : gmap string VercelFile) path :
  NoDup (JSMap.keys files) → path ≠ "__proto__" →
  foldl (fun formatted entry =>
           if decide (entry.1 = "__proto__") then formatted
           else <[entry.1 := {| file := entry.1; data := base64 entry.2 |}]>
                  formatted)
        acc files !! path
  = match JSMap.get path files with
    | Some content => Some {| file := path; data := base64 content |}
    | None => acc !! path
    end.
Proof.
  intros Hnd Hp. revert acc Hnd.
  induction files as [|[k c] files IH]; intros acc Hnd; simpl; [done|].
  unfold JSMap.keys in Hnd. simpl in Hnd. apply NoDup_cons in Hnd as [Hk Hnd].
  rewrite IH by done. destruct (decide (k = path)) as [->|Hkp].
  - apply get_None_keys in Hk. rewrite Hk. rewrite decide_False by done.
    by rewrite lookup_insert_eq.
  - destruct (JSMap.get path files); [done|].
    destruct (decide (k = "__proto__")); [done|].
    by rewrite lookup_insert_ne.
Qed.

Lemma formatFilesForVercel_proto files (acc : gmap string VercelFile) :
  foldl (fun formatted entry =>
           if decide (entry.1 = "__proto__") then formatted
           else <[entry.1 := {| file := entry.1; data := base64 entry.2 |}]>
                  formatted)
        acc files !! "__proto__"
  = acc !! "__proto__".
Proof.
  revert acc. induction files as [|[k c] files IH]; intros acc; simpl; [done|].
  rewrite IH. destruct (decide (k = "__proto__")); [done|].
  by rewrite lookup_insert_ne.
Qed.

(** X8. [formatFilesForVercel] keeps every file but one and adds none:
    the object has a property of its own for a path exactly when the map
    has the path, and the property holds the path and the encoded content
    of that file; only a file with the path [__proto__] gets no
    property. *)
Theorem formatFilesForVercel_lookup (files : list (string * string)) (path : string) :
  NoDup (JSMap.keys files) →
  formatFilesForVercel base64 files !! path
  = if decide (path = "__proto__") then None
    else (fun content => {| file := path; data := base64 content |})
           <$> JSMap.get path files.
Proof.
  intros Hnd. unfold formatFilesForVercel. case_decide as Hp.
  - subst path. by rewrite formatFilesForVercel_proto.
  - rewrite formatFilesForVercel_fold by done.
    by destruct (JSMap.get path files).
Qed.
End vercel_facts.

Lemma formatFilesForVercel_lookup_witness :
  formatFilesForVercel (fun s => s) [("a.js", "1"); ("b/c.js", "2")] !! "b/c.js"
  = Some {| file := "b/c.js"; data := "2" |}.
Proof.
  refine (formatFilesForVercel_lookup (fun s => s)
            [("a.js", "1"); ("b/c.js", "2")] "b/c.js" _).
  refine (bool_decide_unpack _ _). vm_compute. exact I.
Defined.
End project_files.

(* ===================================================================== *)
(** ** More about the scanner and the healer *)
(* ===================================================================== *)

Section healer_more.
Import Healer HealerQueries.
Variable regexMatch : Regex.regex → string → option (string * list string).
Implicit Types (h : State) (env : Env) (code language : string).

Lemma scanPatterns_kind t sev patterns code :
  Forall (fun f => kind f = t) (scanPatterns regexMatch t sev patterns code).
Proof.
  rewrite scanPatterns_omap. unfold rulesOf.
  induction patterns as [|p patterns IH]; simpl; [done|].
  unfold emitRule at 1. simpl.
  destruct (regexMatch (regex p) code) as [[first rest]|]; [|done].
  by constructor.
Qed.

Lemma scanPatterns_length t sev patterns code :
  (length (scanPatterns regexMatch t sev patterns code) ≤ length patterns)%nat.
Proof.
  rewrite scanPatterns_omap. unfold rulesOf.
  induction patterns as [|p patterns IH]; [done|].
  rewrite fmap_cons. cbn [omap list_omap length].
  destruct (emitRule regexMatch code (t, sev, p)); cbn [length]; lia.
Qed.

(** X9. The findings of a scan come grouped by category, in the order
    syntax, type, logic, security, performance, and there are at most
    4, 3, 5, 5 and 4 of them: at most 21 findings in all. *)
Theorem scanCode_grouped code language :
  ∃ a b c d e,
    scanCode regexMatch code language = a ++ b ++ c ++ d ++ e
    ∧ Forall (fun f => kind f = syntax) a ∧ (length a ≤ 4)%nat
    ∧ Forall (fun f => kind f = type) b ∧ (length b ≤ 3)%nat
    ∧ Forall (fun f => kind f = logic) c ∧ (length c ≤ 5)%nat
    ∧ Forall (fun f => kind f = security) d ∧ (length d ≤ 5)%nat
    ∧ Forall (fun f => kind f = performance) e ∧ (length e ≤ 4)%nat
    ∧ (length (scanCode regexMatch code language) ≤ 21)%nat.
Proof.
  exists (scanSyntaxErrors regexMatch code language),
         (scanTypeErrors regexMatch code language),
         (scanLogicErrors regexMatch code language),
         (scanSecurityIssues regexMatch code language),
         (scanPerformanceIssues regexMatch code language).
  assert (Forall (fun f => kind f = type) (scanTypeErrors regexMatch code language)
          ∧ (length (scanTypeErrors regexMatch code language) ≤ 3)%nat) as [Ht Hl].
  { unfold scanTypeErrors. case_decide; [|split; [done | simpl; lia]].
    split; [apply scanPatterns_kind | apply (scanPatterns_length type medium typePatterns)]. }
  pose proof (scanPatterns_length syntax high syntaxPatterns code) as H1.
  pose proof (scanPatterns_length logic high logicPatterns code) as H2.
  pose proof (scanPatterns_length security critical securityPatterns code) as H3.
  pose proof (scanPatterns_length performance low performancePatterns code) as H4.
  simpl in H1, H2, H3, H4.
  repeat split; try apply scanPatterns_kind; try done.
  unfold scanCode. rewrite !length_app.
  unfold scanSyntaxErrors, scanLogicErrors, scanSecurityIssues,
    scanPerformanceIssues. lia.
Qed.

Lemma filter_kind_all (t t' : ErrorType) (l : list CodeError) :
  t ≠ t' → Forall (fun f => kind f = t) l →
  filter (fun f => kind f ≠ t') l = l.
Proof.
  intros Hne Hall. induction Hall as [|f l Hf Hall IH]; [done|].
  rewrite filter_cons_True by congruence. by rewrite IH.
Qed.

Lemma filter_kind_none (t : ErrorType) (l : list CodeError) :
  Forall (fun f => kind f = t) l → filter (fun f => kind f ≠ t) l = [].
Proof.
  intros Hall. induction Hall as [|f l Hf Hall IH]; [done|].
  by rewrite filter_cons_False by (intros H; by apply H).
Qed.

(** X10. The language matters to a scan only through the type table:
    for a language other than "typescript" the findings are those of the
    "typescript" scan without the findings of category type. *)
Theorem scanCode_other_language code language :
  language ≠ "typescript" →
  scanCode regexMatch code language
  = filter (fun f => kind f ≠ type) (scanCode regexMatch code "typescript").
Proof.
  intros Hl. unfold scanCode, scanSyntaxErrors, scanTypeErrors, scanLogicErrors,
    scanSecurityIssues, scanPerformanceIssues.
  rewrite decide_False by done. rewrite decide_True by done.
  rewrite !filter_app.
  rewrite (filter_kind_all syntax type (scanPatterns _ syntax _ _ _)),
    (filter_kind_all logic type (scanPatterns _ logic _ _ _)),
    (filter_kind_all security type (scanPatterns _ security _ _ _)),
    (filter_kind_all performance type (scanPatterns _ performance _ _ _)),
    (filter_kind_none type (scanPatterns _ type _ _ _));
    try done; apply scanPatterns_kind.
Qed.

(** The loop over the findings: the number of fixes grows by at most one
    per finding, and one request is made per finding. *)
Lemma heal_loop env language errors healed n k :
  ∃ healed' n',
    foldl (healStep env language) (healed, n, k) errors
    = (healed', n', (k + length errors)%nat)
    ∧ n ≤ n' ≤ n + Z.of_nat (length errors).
Proof.
  revert healed n k. induction errors as [|error errors IH]; intros healed n k.
  - exists healed, n. simpl. rewrite Nat.add_0_r. split; [done | lia].
  - cbn [foldl].
    remember (healStep env language (healed, n, k) error) as st eqn:Hst.
    unfold healStep in Hst.
    destruct (fixError env k healed error language) as [fixedCode|];
      [destruct (decide (fixedCode = healed))|]; subst st.
    + destruct (IH healed n (S k)) as (h' & n' & -> & Hn).
      exists h', n'. split; [f_equal; simpl; lia | simpl; lia].
    + destruct (IH fixedCode (n + 1) (S k)) as (h' & n' & -> & Hn).
      exists h', n'. split; [f_equal; simpl; lia | simpl; lia].
    + destruct (IH healed n (S k)) as (h' & n' & -> & Hn).
      exists h', n'. split; [f_equal; simpl; lia | simpl; lia].
Qed.

(** The result of a call with findings, through the loop. *)
Lemma healCode_result h env code language :
  scanCode regexMatch code language ≠ [] →
  ∃ healed' n',
    foldl (healStep env language) (code, 0, 0%nat) (scanCode regexMatch code language)
    = (healed', n', length (scanCode regexMatch code language))
    ∧ 0 ≤ n' ≤ Z.of_nat (length (scanCode regexMatch code language))
    ∧ (healCode regexMatch h env code language).2
      = {| original := code; healed := healed';
           errorsFound := scanCode regexMatch code language;
           errorsFix := n';
           confidence := validateCode regexMatch healed' language;
           timestamp := now env 1 |}.
Proof.
  intros Hs.
  destruct (heal_loop env language (scanCode regexMatch code language) code 0 0)
    as (healed' & n' & Hloop & Hn).
  exists healed', n'. split; [exact Hloop|]. split; [lia|].
  unfold healCode. rewrite decide_False by (by destruct (scanCode regexMatch code language)).
  by rewrite Hloop.
Qed.

(** X11. [healCode] counts at most one fix per finding: the number of
    fixes of its result is between 0 and the number of findings. *)
Theorem healCode_fix_count h env code language :
  let r := (healCode regexMatch h env code language).2 in
  0 ≤ errorsFix r ≤ Z.of_nat (length (errorsFound r)).
Proof.
  destruct (scanCode regexMatch code language) as [|f fs] eqn:Hs.
  - rewrite (healCode_clean regexMatch h env code language Hs). simpl. lia.
  - assert (scanCode regexMatch code language ≠ []) as Hne by (by rewrite Hs).
    destruct (healCode_result h env code language Hne) as (hd & n & _ & Hn & ->).
    simpl. done.
Qed.

Lemma validateCode_range code language :
  (0 <= validateCode regexMatch code language)%Q
  ∧ (validateCode regexMatch code language <= 1)%Q.
Proof.
  unfold validateCode. case_decide; [split; discriminate|].
  split; [apply Q.le_max_l|].
  apply Q.max_lub; [discriminate|].
  set (n := length _).
  assert (inject_Z 0 <= inject_Z (Z.of_nat n))%Q as Hn
    by (rewrite <- Zle_Qle; lia).
  change (inject_Z 0) with 0%Q in Hn. lra.
Qed.

Lemma healCode_result_sane h env code language :
  sane (healCode regexMatch h env code language).2.
Proof.
  unfold sane. destruct (scanCode regexMatch code language) as [|f fs] eqn:Hs.
  - rewrite (healCode_clean regexMatch h env code language Hs). simpl.
    split; [lia|]. split; discriminate.
  - assert (scanCode regexMatch code language ≠ []) as Hne by (by rewrite Hs).
    destruct (healCode_result h env code language Hne) as (hd & n & _ & Hn & ->).
    simpl. split; [done|]. apply validateCode_range.
Qed.

(** X12. The confidence of every result of [healCode] is between 0 and
    1; with ten or more findings left after healing it is 0. *)
Theorem healCode_confidence_range h env code language :
  let r := (healCode regexMatch h env code language).2 in
  (0 <= confidence r)%Q ∧ (confidence r <= 1)%Q
  ∧ ((10 ≤ length (scanCode regexMatch (healed r) language))%nat →
     (confidence r == 0)%Q).
Proof.
  destruct (scanCode regexMatch code language) as [|f fs] eqn:Hs.
  - rewrite (healCode_clean regexMatch h env code language Hs). simpl.
    rewrite Hs. simpl. repeat split; try discriminate. lia.
  - assert (scanCode regexMatch code language ≠ []) as Hne by (by rewrite Hs).
    destruct (healCode_result h env code language Hne) as (hd & n & _ & _ & ->).
    simpl. destruct (validateCode_range hd language) as [Hlo Hhi].
    split; [done|]. split; [done|]. intros Hten.
    unfold validateCode. rewrite decide_False by lia.
    apply Q.max_l. set (m := length _) in *.
    assert (inject_Z 10 <= inject_Z (Z.of_nat m))%Q as Hm
      by (rewrite <- Zle_Qle; lia).
    change (inject_Z 10) with 10%Q in Hm. lra.
Qed.

Lemma heal_loop_unhelpful env language errors healed n k :
  unhelpful env →
  foldl (healStep env language) (healed, n, k) errors
  = (healed, n, (k + length errors)%nat).
Proof.
  intros Hu. revert k. induction errors as [|error errors IH]; intros k.
  - simpl. by rewrite Nat.add_0_r.
  - cbn [foldl].
    assert (healStep env language (healed, n, k) error = (healed, n, S k)) as ->.
    { unfold healStep. destruct (Hu k healed error language) as [-> | ->];
        [done | by rewrite decide_True]. }
    rewrite IH. f_equal. simpl. lia.
Qed.

(** X13. When the completion service gives no new text (every request
    throws, or answers with nothing, or with the text it was given),
    [healCode] does not throw and returns the code unchanged with zero
    fixes; with findings, its confidence is that of the code as given. *)
Theorem healCode_unhelpful h env code language :
  unhelpful env →
  let r := (healCode regexMatch h env code language).2 in
  healed r = code ∧ errorsFix r = 0
  ∧ (scanCode regexMatch code language ≠ [] →
     confidence r = validateCode regexMatch code language).
Proof.
  intros Hu. destruct (scanCode regexMatch code language) as [|f fs] eqn:Hs.
  - by rewrite (healCode_clean regexMatch h env code language Hs).
  - assert (scanCode regexMatch code language ≠ []) as Hne by (by rewrite Hs).
    destruct (healCode_result h env code language Hne) as (hd & n & Hloop & _ & ->).
    rewrite heal_loop_unhelpful in Hloop by done. injection Hloop as <- <-. done.
Qed.

(** X14. [healCode] stores a result only when the scan has findings:
    for clean code the history is left as it is; otherwise the result is
    appended to the results kept under the healing id (a new id starts
    with this result alone), and can be read back with [getHistory]. *)
Theorem healCode_history h env code language :
  JSMap.size (healingHistory h) ≤ maxHistory →
  let h' := (healCode regexMatch h env code language).1 in
  let r := (healCode regexMatch h env code language).2 in
  (scanCode regexMatch code language = [] →
     healingHistory h' = healingHistory h)
  ∧ (scanCode regexMatch code language ≠ [] →
     getHistory h' (new_id env)
     = Some (default [] (getHistory h (new_id env)) ++ [r])).
Proof.
  intros Hm. simpl. split.
  - intros Hs. unfold healCode. by rewrite Hs.
  - intros Hs. destruct (healCode_findings regexMatch h env code language Hs)
      as (_ & _ & _ & Hh).
    unfold getHistory. rewrite Hh.
    set (r := (healCode regexMatch h env code language).2).
    destruct (JSMap.get (new_id env) (healingHistory h)) as [rs|] eqn:Hid.
    + unfold record, JSMap.has. rewrite Hid. simpl. rewrite Hid.
      pose proof (length_set (new_id env) (rs ++ [r]) (healingHistory h)) as Hl.
      unfold JSMap.has in Hl. rewrite Hid in Hl.
      unfold JSMap.size in *. rewrite Hl.
      destruct (Z.ltb_spec maxHistory (Z.of_nat (length (healingHistory h)))); [lia|].
      apply get_set_eq.
    + rewrite record_fresh by done. simpl.
      by apply get_put_bounded.
Qed.

End healer_more.

Section healer_more_witnesses.
Import Healer HealerQueries.

Lemma scanCode_other_language_witness :
  scanCode Regex.exec "let x: any = eval(y)" "python"
  = filter (fun f => kind f ≠ type)
           (scanCode Regex.exec "let x: any = eval(y)" "typescript").
Proof.
  apply (scanCode_other_language Regex.exec "let x: any = eval(y)" "python").
  vm_compute. discriminate.
Defined.

Lemma healCode_confidence_range_witness :
  (0 <= confidence (healCode Regex.exec create (Samples.healEnv AIThrew)
                      Samples.risky "typescript").2)%Q.
Proof.
  exact (proj1 (healCode_confidence_range Regex.exec create (Samples.healEnv AIThrew)
                  Samples.risky "typescript")).
Defined.

Lemma healCode_unhelpful_witness :
  healed (healCode Regex.exec create (Samples.healEnv AIThrew)
            Samples.risky "typescript").2 = Samples.risky.
Proof.
  refine (proj1 (healCode_unhelpful Regex.exec create (Samples.healEnv AIThrew)
                   Samples.risky "typescript" _)).
  intros k code error language. left. reflexivity.
Defined.

Lemma healCode_history_witness :
  healingHistory (healCode Regex.exec create (Samples.healEnv AIThrew)
                    Samples.clean "typescript").1 = [].
Proof.
  refine (proj1 (healCode_history Regex.exec create (Samples.healEnv AIThrew)
                   Samples.clean "typescript" _) _);
    vm_compute; [discriminate | reflexivity].
Defined.
End healer_more_witnesses.

(* ===================================================================== *)
(** ** The statistics of the healer *)
(* ===================================================================== *)

Section healer_statistics.
Import Healer HealerQueries.
Variable regexMatch : Regex.regex → string → option (string * list string).

Lemma count_balanced acc r : sane r → balanced acc → balanced (count acc r).
Proof.
  destruct acc as [[[te tf] ts] ac]. unfold sane, balanced, count. simpl.
  intros (Hfix & Hlo & Hhi) (Htf & Hts & Hac & Hacs).
  split; [lia|]. split; [lia|]. rewrite inject_Z_plus.
  change (inject_Z 1) with 1%Q. split; lra.
Qed.

Lemma counts_balanced acc (results : list (list HealingResult)) :
  Forall (Forall sane) results → balanced acc →
  balanced (foldl (fun acc rs => foldl count acc rs) acc results).
Proof.
  intros Hall. revert acc. induction Hall as [|rs results Hrs Hall IH];
    intros acc Hacc; simpl; [done|].
  apply IH. clear IH Hall. revert acc Hacc.
  induction Hrs as [|r rs Hr Hrs IH]; intros acc Hacc; simpl; [done|].
  apply IH. by apply count_balanced.
Qed.

Lemma values_set_Forall {V} (P : V → Prop) k v (m : list (string * V)) :
  Forall P (JSMap.values m) → P v → Forall P (JSMap.values (JSMap.set k v m)).
Proof.
  unfold JSMap.values. induction m as [|[k' v'] m IH]; simpl; intros Hm Hv.
  - by constructor.
  - apply Forall_cons in Hm as [Hv' Hm]. case_decide; simpl.
    + by constructor.
    + constructor; [done | by apply IH].
Qed.

Lemma values_tail_Forall {V} (P : V → Prop) (m : list (string * V)) :
  Forall P (JSMap.values m) → Forall P (JSMap.values (tail m)).
Proof.
  unfold JSMap.values. destruct m as [|kv m]; simpl; [done|].
  by intros [_ ?]%Forall_cons.
Qed.

Lemma values_get_Forall {V} (P : V → Prop) k v (m : list (string * V)) :
  Forall P (JSMap.values m) → JSMap.get k m = Some v → P v.
Proof.
  unfold JSMap.values. induction m as [|[k' v'] m IH]; simpl; [done|].
  intros [Hv' Hm]%Forall_cons. case_decide; [by intros [= <-] | by apply IH].
Qed.

Lemma record_sane max id r (history : list (string * list HealingResult)) :
  Forall (Forall sane) (JSMap.values history) → sane r →
  Forall (Forall sane) (JSMap.values (record max id r history)).
Proof.
  intros Hall Hr. unfold record.
  set (h1 := if JSMap.has id history then history else JSMap.set id [] history).
  assert (Forall (Forall sane) (JSMap.values h1)) as Hh1.
  { subst h1. destruct (JSMap.has id history); [done|].
    by apply values_set_Forall. }
  set (h2 := match JSMap.get id h1 with
             | Some results => JSMap.set id (results ++ [r]) h1
             | None => h1
             end).
  assert (Forall (Forall sane) (JSMap.values h2)) as Hh2.
  { subst h2. destruct (JSMap.get id h1) as [rs|] eqn:Hid; [|done].
    apply values_set_Forall; [done|]. apply Forall_app. split.
    - by apply (values_get_Forall _ id rs h1).
    - by constructor. }
  destruct (max <? JSMap.size h2); [|done].
  rewrite delete_first_tail. by apply values_tail_Forall.
Qed.

Lemma healCode_sane h env code language :
  Forall (Forall sane) (JSMap.values (healingHistory h)) →
  Forall (Forall sane)
    (JSMap.values (healingHistory (healCode regexMatch h env code language).1)).
Proof.
  intros Hall. destruct (scanCode regexMatch code language) as [|f fs] eqn:Hs.
  - unfold healCode. by rewrite Hs.
  - assert (scanCode regexMatch code language ≠ []) as Hne by (by rewrite Hs).
    destruct (healCode_findings regexMatch h env code language Hne)
      as (_ & _ & _ & ->).
    apply record_sane; [done|]. apply healCode_result_sane.
Qed.

Lemma heal_all_sane calls h :
  Forall (Forall sane) (JSMap.values (healingHistory h)) →
  Forall (Forall sane)
    (JSMap.values (healingHistory (heal_all regexMatch calls h))).
Proof.
  revert h. induction calls as [|c calls IH]; intros h Hall; simpl; [done|].
  apply IH. by apply healCode_sane.
Qed.

(** X15. After any run of [healCode] calls on a new healer, the
    statistics are in range: the fixes counted are between 0 and the
    findings counted, the fix rate is between 0 and 100 and the average
    confidence between 0 and 1 (both are 0, not a division by zero, when
    nothing is stored). *)
Theorem getStatistics_range (calls : list (Env * string * string)) :
  let st := getStatistics (heal_all regexMatch calls create) in
  0 ≤ totalFixed st ≤ totalErrors st
  ∧ 0 ≤ totalScans st
  ∧ (0 <= fixRate st)%Q ∧ (fixRate st <= 100)%Q
  ∧ (0 <= avgConfidence st)%Q ∧ (avgConfidence st <= 1)%Q.
Proof.
  intros st. subst st. unfold getStatistics.
  pose proof (heal_all_sane calls create (Forall_nil_2 _)) as Hall.
  assert (balanced (0, 0, 0, 0%Q)) as H0
    by (unfold balanced; simpl; repeat split; (lia || discriminate)).
  pose proof (counts_balanced _ _ Hall H0) as Hb.
  destruct (foldl _ _ _) as [[[te tf] ts] ac].
  unfold balanced in Hb. simpl in Hb. destruct Hb as (Htf & Hts & Hac & Hacs).
  simpl. split; [done|]. split; [done|].
  assert ((0 <= (if 0 <? te then inject_Z tf / inject_Z te * 100 else 0))%Q
          ∧ ((if 0 <? te then inject_Z tf / inject_Z te * 100 else 0) <= 100)%Q)
    as [? ?].
  { destruct (Z.ltb_spec 0 te); [|split; discriminate].
    destruct (ratio_range tf te) as [Hlo Hhi]; [done..|].
    by apply percent_range. }
  assert ((0 <= (if 0 <? ts then ac / inject_Z ts else 0))%Q
          ∧ ((if 0 <? ts then ac / inject_Z ts else 0) <= 1)%Q) as [? ?].
  { destruct (Z.ltb_spec 0 ts) as [Hpos|]; [|split; discriminate].
    assert (0 < inject_Z ts)%Q as Hq
      by (change (inject_Z 0 < inject_Z ts)%Q; by rewrite <- Zlt_Qlt).
    split.
    - apply Qle_shift_div_l; [done|]. by rewrite Qmult_0_l.
    - apply Qle_shift_div_r; [done|]. by rewrite Qmult_1_l. }
  done.
Qed.
End healer_statistics.

(* ===================================================================== *)
(** ** The reference matcher: what a finding quotes *)
(* ===================================================================== *)

Section matcher_facts.
Import Regex Healer HealerQueries.

Lemma star_prefix a k prev s m :
  (∀ prev s m, k prev s = Some m → ∃ rest, s = m +:+ rest) →
  star a k prev s = Some m → ∃ rest, s = m +:+ rest.
Proof.
  intros Hk. revert prev m. induction s as [|c s IH]; intros prev m; simpl.
  - apply Hk.
  - destruct (accepts a c); [|apply Hk].
    destruct (star a k (Some c) s) as [m'|] eqn:Hs; [|apply Hk].
    intros [= <-]. destruct (IH _ _ Hs) as [rest ->]. by exists rest.
Qed.

(** A match at a position is a prefix of the text from there on. *)
Lemma match_here_prefix p prev s m :
  match_here p prev s = Some m → ∃ rest, s = m +:+ rest.
Proof.
  revert prev s m. induction p as [|i p IH]; intros prev s m; simpl.
  - intros [= <-]. by exists s.
  - destruct i as [a [| |]|].
    + destruct s as [|c s]; [done|]. destruct (accepts a c); [|done].
      destruct (match_here p (Some c) s) as [m'|] eqn:Hm; [|done].
      intros [= <-]. destruct (IH _ _ _ Hm) as [rest ->]. by exists rest.
    + by apply star_prefix.
    + destruct s as [|c s]; [done|]. destruct (accepts a c); [|done].
      destruct (star a (match_here p) (Some c) s) as [m'|] eqn:Hm; [|done].
      intros [= <-]. destruct (star_prefix _ _ _ _ _ IH Hm) as [rest ->].
      by exists rest.
    + destruct (xorb _ _); [apply IH | done].
Qed.

Lemma match_here_nonempty p prev s m :
  consuming p = true → match_here p prev s = Some m → m ≠ EmptyString.
Proof.
  destruct p as [|[a [| |]|] p]; try done; simpl; intros _;
    (destruct s as [|c s]; [done|]); (destruct (accepts a c); [|done]).
  - destruct (match_here p (Some c) s); simpl; [by intros [= <-] | done].
  - destruct (star a (match_here p) (Some c) s); simpl; [by intros [= <-] | done].
Qed.

(** The leftmost match is a match at some position, and occurs in the
    text. *)
Lemma search_found p prev s m x :
  search p prev s = Some (m, x) →
  occursIn m s ∧ ∃ prev' s', match_here p prev' s' = Some m.
Proof.
  revert prev. induction s as [|c s IH]; intros prev; simpl.
  - destruct (match_here p prev EmptyString) as [m'|] eqn:Hm; [|done].
    intros [= <- _]. split; [|eauto].
    destruct (match_here_prefix _ _ _ _ Hm) as [rest Hrest].
    by exists EmptyString, rest.
  - destruct (match_here p prev (String c s)) as [m'|] eqn:Hm.
    + intros [= <- _]. split; [|eauto].
      destruct (match_here_prefix _ _ _ _ Hm) as [rest Hrest].
      by exists EmptyString, rest.
    + intros Hs. destruct (IH _ Hs) as [(before & after & ->) Hex].
      split; [|done]. by exists (String c before), after.
Qed.

Lemma exec_first p code first rest :
  exec p code = Some (first, rest) →
  occursIn first code ∧ (consuming p = true → first ≠ EmptyString).
Proof.
  unfold exec. simpl.
  destruct (search p None code) as [[m [prev' s']]|] eqn:Hs; [|done].
  intros [= <- _]. destruct (search_found _ _ _ _ _ Hs) as [Hocc (pv & sv & Hm)].
  split; [done|]. intros Hc. by apply (match_here_nonempty p pv sv).
Qed.

Lemma tables_consuming :
  Forall (fun g => Forall (fun p => consuming (regex p) = true) g.2) groups.
Proof. refine (bool_decide_unpack _ _). by vm_compute. Qed.

(** X16. With the reference matcher, the code a finding quotes is a
    non-empty piece of the scanned text. *)
Theorem finding_quotes_code code language f :
  f ∈ scanCode Regex.exec code language →
  Healer.code f ≠ EmptyString ∧ occursIn (Healer.code f) code.
Proof.
  intros Hf.
  destruct (scanCode_finding_origin Regex.exec code language f Hf)
    as (t & sev & table & p & first & rest & Hg & Hp & Hm & -> & _).
  destruct (exec_first _ _ _ _ Hm) as [Hocc Hne]. simpl.
  split; [|done]. apply Hne.
  pose proof tables_consuming as Hall.
  rewrite Forall_forall in Hall. specialize (Hall _ Hg). simpl in Hall.
  rewrite Forall_forall in Hall. by apply Hall.
Qed.

Lemma finding_quotes_code_witness :
  occursIn "eval(" "x = eval(y)".
Proof.
  refine (proj2 (finding_quotes_code "x = eval(y)" "typescript"
            {| kind := security; severity := critical; line := None;
               column := None; message := "eval() is dangerous";
               code := "eval("; suggestion := None |} _)).
  vm_compute. constructor.
Defined.
End matcher_facts.

(* ===================================================================== *)
(** ** More about the project generator *)
(* ===================================================================== *)

Section generator_more.
Import Generator GeneratorQueries.
Variable content : ProjectRequirement → TechStack → string → string.
Implicit Types (e : Engine) (env : Env) (r : ProjectRequirement).

(** X17. [generateProject] always stores the project it returns: it can
    be read back with [getProject] under its id, the store stays within
    10000, and every other stored project except possibly the oldest is
    left as it is. *)
Theorem generateProject_stored e env r :
  JSMap.size (generatedProjects e) ≤ maxProjects →
  let e' := (generateProject content e env r).1 in
  let project := (generateProject content e env r).2 in
  getProject e' (new_id env) = Some project
  ∧ p_id project = new_id env
  ∧ JSMap.size (generatedProjects e') ≤ maxProjects
  ∧ (∀ id, id ≠ new_id env → JSMap.first_key (generatedProjects e) ≠ Some id →
           getProject e' id = getProject e id).
Proof.
  intros Hm. simpl. unfold getProject. simpl.
  split; [by apply get_put_bounded|]. split; [done|].
  split; [by apply put_bounded_size|].
  intros id Hid Hfirst. by apply get_put_bounded_other.
Qed.

Lemma sourcePaths_cases projectType :
  sourcePaths projectType ∈
    [["src/game.ts"; "src/scenes/MainScene.ts"];
     ["src/App.tsx"; "src/pages/Home.tsx"];
     ["src/App.tsx"; "src/screens/HomeScreen.tsx"];
     ["src/server.ts"; "src/routes/index.ts"];
     ["src/index.ts"]].
Proof. unfold sourcePaths. repeat case_decide; repeat constructor. Qed.

(** The files of a project, by path. *)
Lemma generateProjectFiles_keys r stack analysis :
  JSMap.keys (generateProjectFiles content r stack analysis)
  = ["package.json"; "README.md"; "tsconfig.json"; ".gitignore"]
      ++ sourcePaths (type r).
Proof.
  unfold generateProjectFiles.
  pose proof (sourcePaths_cases (type r)) as Hc.
  rewrite !elem_of_cons in Hc.
  destruct Hc as [-> |[-> |[-> |[-> |[-> |Hc]]]]];
    [reflexivity..|by apply elem_of_nil in Hc].
Qed.

(** X18. Every generated project has the four base files
    (package.json, README.md, tsconfig.json, .gitignore) followed by the
    source files of its type: two for game, website, app and api, one
    (src/index.ts) for every other type; so five or six files in all. *)
Theorem generateProject_files e env r :
  let project := (generateProject content e env r).2 in
  JSMap.keys (files project)
  = ["package.json"; "README.md"; "tsconfig.json"; ".gitignore"]
      ++ sourcePaths (type r)
  ∧ (JSMap.size (files project)
     = if bool_decide (type r ∈ ["game"; "website"; "app"; "api"]) then 6 else 5).
Proof.
  simpl. split; [apply generateProjectFiles_keys|].
  set (fs := generateProjectFiles _ _ _ _).
  assert (JSMap.keys fs = ["package.json"; "README.md"; "tsconfig.json"; ".gitignore"]
                            ++ sourcePaths (type r)) as Hk
    by apply generateProjectFiles_keys.
  unfold JSMap.size.
  assert (length fs = length (JSMap.keys fs)) as ->
    by (unfold JSMap.keys; by rewrite length_fmap).
  rewrite Hk. destruct (decide (type r ∈ ["game"; "website"; "app"; "api"]))
    as [Hin|Hnin].
  - rewrite bool_decide_eq_true_2 by done. rewrite !elem_of_cons in Hin.
    destruct Hin as [H|[H|[H|[H|H]]]];
      [rewrite H; reflexivity..|by apply elem_of_nil in H].
  - rewrite bool_decide_eq_false_2 by done. unfold sourcePaths.
    rewrite !decide_False; [reflexivity|..];
      intros Heq; apply Hnin; rewrite Heq; repeat constructor.
Qed.

Lemma has_keys {V} k (m : list (string * V)) :
  JSMap.has k m = bool_decide (k ∈ JSMap.keys m).
Proof.
  unfold JSMap.has. destruct (JSMap.get k m) as [v|] eqn:Hk.
  - symmetry. apply bool_decide_eq_true_2.
    destruct (decide (k ∈ JSMap.keys m)) as [|Hn]; [done|].
    apply get_None_keys in Hn. congruence.
  - symmetry. apply bool_decide_eq_false_2. by apply get_None_keys.
Qed.

(** X19. The confidence of every generated project is 0.8: the base
    0.7 plus 0.05 each for the readme and the manifest, which are always
    there; the 0.15 for more than ten files never applies, since a
    project has at most six. *)
Theorem generateProject_confidence e env r :
  (confidence (generateProject content e env r).2 == 8 # 10)%Q.
Proof.
  simpl. unfold calculateConfidence.
  set (fs := generateProjectFiles _ _ _ _).
  assert (JSMap.keys fs = ["package.json"; "README.md"; "tsconfig.json"; ".gitignore"]
                            ++ sourcePaths (type r)) as Hk
    by apply generateProjectFiles_keys.
  assert (JSMap.size fs ≤ 6) as Hsize.
  { unfold JSMap.size.
    assert (length fs = length (JSMap.keys fs)) as ->
      by (unfold JSMap.keys; by rewrite length_fmap).
    rewrite Hk. pose proof (sourcePaths_cases (type r)) as Hc.
    rewrite !elem_of_cons in Hc.
    destruct Hc as [-> |[-> |[-> |[-> |[-> |Hc]]]]]; simpl; try lia.
    by apply elem_of_nil in Hc. }
  destruct (Z.ltb_spec 10 (JSMap.size fs)); [lia|].
  rewrite !has_keys, Hk.
  rewrite !bool_decide_eq_true_2 by (simpl; repeat constructor).
  by vm_compute.
Qed.

(** X20. [selectTechStack] never adds a technology: every array of the
    selected stack is a prefix of the array of the catalog entry it
    starts from. For complexity simple the stack has no libraries. *)
Theorem selectTechStack_from_catalog (projectType : string) (analysis : Analysis) :
  let entry := default other (template projectType) in
  let stack := selectTechStack projectType analysis in
  (∀ field : TechStack → option (list string),
     field ∈ [frontend; backend; database; deployment; tools; libraries] →
     ∀ l, field stack = Some l → ∃ l0, field entry = Some l0 ∧ l `prefix_of` l0)
  ∧ (complexityOf analysis = "simple" → libraries stack = None).
Proof.
  intros entry stack. subst entry stack. unfold selectTechStack.
  set (b := default other (template projectType)).
  split.
  - intros field Hf l. rewrite !elem_of_cons in Hf.
    repeat case_decide;
      destruct Hf as [-> |[-> |[-> |[-> |[-> |[-> |Hf]]]]]];
      try (by apply elem_of_nil in Hf); simpl;
      try (intros Hl; exists l; by split);
      try done;
      (destruct (_ b) as [l0|]; simpl; [|done]; intros [= <-];
       exists l0; split; [done | apply prefix_take]).
  - intros Hc. by rewrite decide_True.
Qed.

(** X22. [getStatus] reports the service as connected as soon as the
    URL is set; with the key missing the service is still never asked:
    the analysis is the local one whatever the service would answer. *)
Theorem getStatus_connected_without_key e r :
  manusApiUrl e ≠ "" → manusApiKey e = "" →
  manusApiConnected (getStatus e) = true
  ∧ ∀ outcome,
      analyzeRequirement e outcome r = analyzeRequirement e ApiThrew r
      ∧ complexity (analyzeRequirement e outcome r) = Some (estimateComplexity r).
Proof.
  intros Hurl Hkey. split.
  - unfold getStatus, truthy. simpl. by rewrite bool_decide_eq_false_2.
  - intros outcome. unfold analyzeRequirement, truthy. rewrite Hkey. simpl.
    by rewrite andb_false_r.
Qed.

Lemma dependencies_cases (stack : TechStack) :
  let d := dependencies stack in
  (JSMap.has "next" d = true → JSMap.has "react" d = true)
  ∧ (JSMap.has "react-dom" d = true → JSMap.has "react" d = true)
  ∧ JSMap.has "express" d = includes (backend stack) "Express"
  ∧ JSMap.has "cors" d = includes (backend stack) "Express"
  ∧ JSMap.has "helmet" d = includes (backend stack) "Express"
  ∧ JSMap.has "phaser" d = includes (frontend stack) "Phaser 3".
Proof.
  unfold dependencies.
  destruct (includes (frontend stack) "React 19"),
    (includes (frontend stack) "Next.js 15"),
    (includes (backend stack) "Express"),
    (includes (frontend stack) "Phaser 3"); by vm_compute.
Qed.

(** X23. In the [dependencies] of the manifest, [next] and [react-dom]
    never come without [react]; [express], [cors] and [helmet] come
    together, exactly when the backend has Express; [phaser] comes
    exactly when the frontend has Phaser 3. *)
Theorem dependencies_closed (stack : TechStack) :
  let d := dependencies stack in
  (JSMap.has "next" d = true → JSMap.has "react" d = true)
  ∧ (JSMap.has "react-dom" d = true → JSMap.has "react" d = true)
  ∧ JSMap.has "express" d = includes (backend stack) "Express"
  ∧ JSMap.has "cors" d = includes (backend stack) "Express"
  ∧ JSMap.has "helmet" d = includes (backend stack) "Express"
  ∧ JSMap.has "phaser" d = includes (frontend stack) "Phaser 3".
Proof. apply dependencies_cases. Qed.

(** X24. A project of complexity simple never depends on Express (nor
    on cors or helmet), whatever its type: the simple stack keeps only
    the first backend of the catalog entry. *)
Theorem simple_without_express (projectType : string) (analysis : Analysis) :
  complexityOf analysis = "simple" →
  JSMap.has "express" (dependencies (selectTechStack projectType analysis)) = false.
Proof.
  intros Hc.
  destruct (dependencies_cases (selectTechStack projectType analysis))
    as (_ & _ & -> & _).
  unfold selectTechStack. rewrite decide_True by done. simpl.
  unfold template, techStackTemplates. simpl.
  repeat case_decide; reflexivity.
Qed.

End generator_more.

Section generator_more_witnesses.
Import Generator GeneratorQueries.

Lemma generateProject_stored_witness :
  getProject (generateProject Samples.blank Samples.offline
                (Samples.genEnv ApiThrew) (Samples.requirement [])).1 "proj-1"
  = Some (generateProject Samples.blank Samples.offline
            (Samples.genEnv ApiThrew) (Samples.requirement [])).2.
Proof.
  refine (proj1 (generateProject_stored Samples.blank Samples.offline
                   (Samples.genEnv ApiThrew) (Samples.requirement []) _)).
  vm_compute. discriminate.
Defined.

Lemma selectTechStack_from_catalog_witness :
  libraries (selectTechStack "game" (Samples.analysisWith "simple")) = None.
Proof.
  exact (proj2 (selectTechStack_from_catalog "game" (Samples.analysisWith "simple"))
               eq_refl).
Defined.

Lemma getStatus_connected_without_key_witness :
  manusApiConnected (getStatus (create "https://manus.example" "")) = true.
Proof.
  refine (proj1 (getStatus_connected_without_key
                   (create "https://manus.example" "") (Samples.requirement []) _ _));
    [vm_compute; discriminate | reflexivity].
Defined.

Lemma dependencies_closed_witness :
  JSMap.has "react"
    (dependencies (selectTechStack "website" (Samples.analysisWith "medium"))) = true.
Proof.
  refine (proj1 (dependencies_closed
            (selectTechStack "website" (Samples.analysisWith "medium"))) _).
  reflexivity.
Defined.

Lemma simple_without_express_witness :
  JSMap.has "express"
    (dependencies (selectTechStack "api" (Samples.analysisWith "simple"))) = false.
Proof.
  exact (simple_without_express "api" (Samples.analysisWith "simple") eq_refl).
Defined.
End generator_more_witnesses.

(* ===================================================================== *)
(** ** The name of the package manifest *)
(* ===================================================================== *)

Section package_name.
Import Generator GeneratorQueries.

Lemma lower_not_upper c : isUpper (lower c) = false.
Proof. by destruct c as [[] [] [] [] [] [] [] []]. Qed.

Lemma lower_space c : Regex.is_space (lower c) = Regex.is_space c.
Proof. by destruct c as [[] [] [] [] [] [] [] []]. Qed.

Lemma toLowerCase_chars s :
  Forall (fun c => isUpper c = false) (chars (toLowerCase s)).
Proof.
  induction s as [|c s IH]; simpl; constructor; [apply lower_not_upper | done].
Qed.

Lemma dashes_chars run s :
  Forall (fun c => isUpper c = false) (chars s) →
  Forall (fun c => Regex.is_space c = false ∧ isUpper c = false)
         (chars (dashes run s)).
Proof.
  revert run. induction s as [|c s IH]; intros run; simpl; [done|].
  intros [Hc Hs]%Forall_cons.
  destruct (Regex.is_space c) eqn:Hsp.
  - destruct run; [by apply IH|]. simpl. constructor; [done | by apply IH].
  - simpl. constructor; [done | by apply IH].
Qed.

Lemma dashes_clean run s :
  Forall (fun c => Regex.is_space c = false) (chars s) → dashes run s = s.
Proof.
  revert run. induction s as [|c s IH]; intros run; simpl; [done|].
  intros [Hc Hs]%Forall_cons. rewrite Hc. by rewrite IH.
Qed.

(** X25. The package name made from a project name has no white space
    and no capital letter A-Z; a project name without white space is
    only put in lower case. *)
Theorem packageName_clean (r : ProjectRequirement) :
  Forall (fun c => Regex.is_space c = false ∧ isUpper c = false)
         (chars (packageName r))
  ∧ (Forall (fun c => Regex.is_space c = false) (chars (name r)) →
     packageName r = toLowerCase (name r)).
Proof.
  unfold packageName. split.
  - apply dashes_chars, toLowerCase_chars.
  - intros Hclean. apply dashes_clean.
    induction (name r) as [|c s IH]; simpl; [done|].
    apply Forall_cons in Hclean as [Hc Hs].
    constructor; [by rewrite lower_space | by apply IH].
Qed.

Lemma packageName_clean_witness :
  packageName (Samples.requirement []) = "demo"
  ∧ dashes false (toLowerCase "My  Cool App") = "my-cool-app".
Proof.
  split; [|reflexivity].
  refine (proj2 (packageName_clean (Samples.requirement [])) _).
  vm_compute. repeat constructor.
Defined.
End package_name.

(* ===================================================================== *)
(** ** More about the monetization ledger *)
(* ===================================================================== *)

Section ledger_more.
Import Monetization Ledger.
Context {N : Type} `{!Number N}.
Implicit Types (e : Engine N) (t : Template N).

Lemma keyed_wf e : keyed e → wf e.
Proof. intros Hk k r Hr. destruct (Hk k r Hr) as (t & Ht & _). by eexists. Qed.

Lemma alloc_fresh e t : objects e !! (alloc t e).2 = None.
Proof.
  simpl. apply not_elem_of_dom. apply is_fresh.
Qed.

Lemma create_keyed : keyed (create (N:=N)).
Proof. intros k r Hr. done. Qed.

Lemma publishNew_unfold e t :
  publishNew e t =
  {| objects := <[fresh (dom (objects e)) := t]> (objects e);
     templates := JSMap.set (id t) (fresh (dom (objects e))) (templates e);
     revenue := revenue e;
     emitted := emitted e ++ [template_published (id t) (name t)] |}.
Proof.
  unfold publishNew, alloc, publishTemplate. simpl. by rewrite lookup_insert_eq.
Qed.

Lemma publishNew_keyed e t : keyed e → keyed (publishNew e t).
Proof.
  intros Hk k r. rewrite publishNew_unfold. simpl.
  destruct (decide (id t = k)) as [<-|Hne].
  - rewrite get_set_eq. intros [= <-]. exists t. by rewrite lookup_insert_eq.
  - rewrite get_set_ne by done. intros Hr.
    destruct (Hk k r Hr) as (t' & Ht' & Hid). exists t'. split; [|done].
    rewrite lookup_insert_ne; [done|]. intros <-.
    pose proof (alloc_fresh e t) as Hf. simpl in Hf. congruence.
Qed.

Lemma purchaseTemplate_keyed e templateId buyerId :
  keyed e → keyed (purchaseTemplate e templateId buyerId).1.
Proof.
  intros Hk. unfold purchaseTemplate.
  destruct (JSMap.get templateId (templates e)) as [r|] eqn:Hr; [|done].
  destruct (objects e !! r) as [t|] eqn:Ht; [|done].
  intros k r' Hr'. simpl in *. destruct (Hk k r' Hr') as (t' & Ht' & Hid).
  destruct (decide (r = r')) as [<-|Hne].
  - exists (purchased t). rewrite lookup_insert_eq. split; [done|].
    simpl. congruence.
  - exists t'. by rewrite lookup_insert_ne.
Qed.

Lemma run_keyed calls e : keyed e → keyed (run calls e).
Proof.
  revert e. induction calls as [|c calls IH]; intros e Hk; simpl; [done|].
  apply IH. destruct c as [t|k b]; simpl;
    [by apply publishNew_keyed | by apply purchaseTemplate_keyed].
Qed.

(** X26. After any run of purchases and of publications of new objects
    on a new ledger, every template is found under its own id: a lookup
    by id returns a template that carries that id. *)
Theorem run_lookup_id (calls : list (Call N)) (k : string) t :
  lookup (run calls create) k = Some t → id t = k.
Proof.
  pose proof (run_keyed calls create create_keyed) as Hk.
  unfold lookup. destruct (JSMap.get k (templates (run calls create)))
    as [r|] eqn:Hr; [|done].
  simpl. intros Ht. destruct (Hk k r Hr) as (t' & Ht' & Hid). congruence.
Qed.

(** X27. Publishing a template makes it readable under its id, puts it
    in place of an earlier template with the same id, leaves the
    templates of every other id and the revenue as they are. *)
Theorem publishNew_lookup e t :
  keyed e →
  lookup (publishNew e t) (id t) = Some t
  ∧ revenue (publishNew e t) = revenue e
  ∧ (∀ k, k ≠ id t → lookup (publishNew e t) k = lookup e k)
  ∧ JSMap.size (templates (publishNew e t))
    = if JSMap.has (id t) (templates e)
      then JSMap.size (templates e) else JSMap.size (templates e) + 1.
Proof.
  intros Hk. rewrite publishNew_unfold. unfold lookup. simpl.
  split; [|split; [done|split]].
  - rewrite get_set_eq. simpl. by rewrite lookup_insert_eq.
  - intros k Hne. rewrite get_set_ne by done.
    destruct (JSMap.get k (templates e)) as [r|] eqn:Hr; [|done]. simpl.
    destruct (Hk k r Hr) as (t' & Ht' & _).
    rewrite lookup_insert_ne; [done|]. intros <-.
    pose proof (alloc_fresh e t) as Hf. simpl in Hf. congruence.
  - unfold JSMap.size. rewrite length_set.
    destruct (JSMap.has (id t) (templates e)); lia.
Qed.

(** X28. A purchase updates one object. The template found under
    another id shows the purchase when that id holds the purchased
    object (one object published under two ids), and is as before when
    it holds another object; so in a ledger where every object is stored
    under its own id no other id is touched. *)
Theorem purchaseTemplate_other_ids e templateId buyerId k :
  (lookup (purchaseTemplate e templateId buyerId).1 k =
   if sameObject e templateId k && (purchaseTemplate e templateId buyerId).2
   then purchased <$> lookup e k
   else lookup e k)
  ∧ (keyed e → k ≠ templateId → sameObject e templateId k = false).
Proof.
  split.
  - unfold purchaseTemplate, sameObject, lookup.
    destruct (JSMap.get templateId (templates e)) as [r|] eqn:Hr; [|done].
    destruct (objects e !! r) as [t|] eqn:Ht;
      [|simpl; by rewrite andb_false_r].
    simpl. destruct (JSMap.get k (templates e)) as [r'|] eqn:Hr'; [|done].
    simpl. rewrite andb_true_r. case_bool_decide as Heq.
    + subst r'. by rewrite lookup_insert_eq, Ht.
    + by rewrite lookup_insert_ne.
  - intros Hk Hne. unfold sameObject.
    destruct (JSMap.get templateId (templates e)) as [r|] eqn:Hr; [|done].
    destruct (JSMap.get k (templates e)) as [r'|] eqn:Hr'; [|done].
    apply bool_decide_eq_false_2. intros <-.
    destruct (Hk _ _ Hr) as (t1 & Ht1 & Hid1).
    destruct (Hk _ _ Hr') as (t2 & Ht2 & Hid2). congruence.
Qed.

(** X29. Purchases are counted every time, whoever the buyer is and
    however often they bought before: after [n] purchases of a known
    template its download counter is the result of [n] additions of 1
    and the revenue the result of [n] additions of its price, each in
    the arithmetic of the program; the price is as it was. *)
Theorem purchases_add_up (n : nat) e templateId buyerId t :
  lookup e templateId = Some t →
  ∃ t', lookup (purchases n e templateId buyerId) templateId = Some t'
        ∧ downloads t' = Nat.iter n (fun d => plus d one) (downloads t)
        ∧ price t' = price t
        ∧ revenue (purchases n e templateId buyerId)
          = Nat.iter n (fun r => plus r (price t)) (revenue e).
Proof.
  revert e t. induction n as [|n IH]; intros e t Ht.
  - exists t. by simpl.
  - unfold lookup in Ht.
    destruct (JSMap.get templateId (templates e)) as [r|] eqn:Hr; [|done].
    simpl in Ht. cbn [purchases].
    rewrite (purchaseTemplate_known e templateId buyerId r t Hr Ht). cbn [fst].
    destruct (IH {| objects := <[r := purchased t]> (objects e);
                    templates := templates e;
                    revenue := plus (revenue e) (price t);
                    emitted := emitted e
                      ++ [template_purchased templateId buyerId (price t)] |}
                 (purchased t)) as (t' & Hl & Hd & Hp & Hrev).
    { unfold lookup. simpl. rewrite Hr. simpl. by rewrite lookup_insert_eq. }
    exists t'. split; [done|]. rewrite !Nat.iter_succ_r.
    split; [exact Hd|]. split; [exact Hp | exact Hrev].
Qed.
End ledger_more.

Section ledger_witnesses.
Import PrimFloat Monetization Ledger.

Lemma run_lookup_id_witness :
  Monetization.id (purchased Samples.starter) = "tpl-1".
Proof.
  apply (run_lookup_id [Publish Samples.starter; Purchase "tpl-1" "bob"] "tpl-1").
  reflexivity.
Defined.

Lemma publishNew_lookup_witness :
  lookup (publishNew create Samples.starter) "tpl-1" = Some Samples.starter.
Proof.
  exact (proj1 (publishNew_lookup create Samples.starter create_keyed)).
Defined.

(** A purchase under one id of an object published under two ids shows
    under the other id too. *)
Lemma purchaseTemplate_other_ids_witness :
  downloads <$> lookup Doubles.twice "tpl-a" = Some 0%float
  ∧ downloads <$> lookup (purchaseTemplate Doubles.twice "tpl-b" "bob").1 "tpl-a"
    = Some 1%float.
Proof.
  split; [reflexivity|].
  rewrite (proj1 (purchaseTemplate_other_ids Doubles.twice "tpl-b" "bob" "tpl-a")).
  reflexivity.
Defined.

(** Ten purchases at the double next to 0.1 do not add up to 1. *)
Lemma purchases_add_up_witness :
  revenue (purchases 10 Doubles.dime "tpl-1" "bob") = 0x1.fffffffffffffp-1%float
  ∧ ∃ t', lookup (purchases 10 Doubles.dime "tpl-1" "bob") "tpl-1" = Some t'
          ∧ downloads t' = 10%float.
Proof.
  destruct (purchases_add_up 10 Doubles.dime "tpl-1" "bob"
              (Doubles.kit "tpl-1" 0x1.999999999999ap-4 0) eq_refl)
    as (t' & Hl & Hd & _ & Hrev).
  split; [exact Hrev|]. exists t'. split; [exact Hl | exact Hd].
Defined.
End ledger_witnesses.

Section ledger_exact.
Import Monetization Ledger.
Implicit Types (e : Engine Q) (t : Template Q).

Lemma publishNew_priced e t : priced e → (0 <= price t)%Q → priced (publishNew e t).
Proof.
  intros Hp Ht r t'. rewrite publishNew_unfold. simpl.
  rewrite lookup_insert. case_decide; [by intros [= <-] | apply Hp].
Qed.

Lemma purchaseTemplate_priced e templateId buyerId :
  priced e →
  priced (purchaseTemplate e templateId buyerId).1
  ∧ (revenue e <= revenue (purchaseTemplate e templateId buyerId).1)%Q.
Proof.
  intros Hp. unfold purchaseTemplate.
  destruct (JSMap.get templateId (templates e)) as [r|] eqn:Hr;
    [|split; [done | apply Qle_refl]].
  destruct (objects e !! r) as [t|] eqn:Ht; [|split; [done | apply Qle_refl]].
  simpl. pose proof (Hp r t Ht) as Hprice. split.
  - intros r' t'. simpl. rewrite lookup_insert.
    case_decide; [intros [= <-]; by simpl | apply Hp].
  - lra.
Qed.

Lemma run_priced calls e :
  priced e → (∀ t, Publish t ∈ calls → (0 <= price t)%Q) →
  priced (run calls e) ∧ (revenue e <= revenue (run calls e))%Q.
Proof.
  revert e. induction calls as [|c calls IH]; intros e Hp Hcalls; simpl.
  - split; [done | apply Qle_refl].
  - assert (priced (step e c) ∧ (revenue e <= revenue (step e c))%Q) as [Hp' Hr'].
    { destruct c as [t|k b]; simpl.
      - split; [|rewrite publishNew_unfold; apply Qle_refl].
        apply publishNew_priced; [done|]. apply Hcalls. constructor.
      - by apply purchaseTemplate_priced. }
    destruct (IH (step e c) Hp') as [Hp'' Hr''].
    { intros t Ht. apply Hcalls. by constructor. }
    split; [done|]. by apply Qle_trans with (revenue (step e c)).
Qed.

(** X30. When no published template has a negative price, the revenue
    never goes down: after any further calls it is at least what it was,
    and never below 0. *)
Theorem revenue_monotone (before after : list (Call Q)) :
  (∀ t, Publish t ∈ before ++ after → (0 <= price t)%Q) →
  (0 <= revenue (run before create))%Q
  ∧ (revenue (run before create) <= revenue (run (before ++ after) create))%Q.
Proof.
  intros Hcalls.
  assert (priced create) as H0 by (intros r t Hr; done).
  destruct (run_priced before create H0) as [Hp Hr].
  { intros t Ht. apply Hcalls. apply elem_of_app. by left. }
  split; [exact Hr|]. unfold run. rewrite foldl_app.
  apply (run_priced after (run before create) Hp).
  intros t Ht. apply Hcalls. apply elem_of_app. by right.
Qed.

Lemma revenue_monotone_witness :
  (0 <= revenue (run [Publish Samples.starter; Purchase "tpl-1" "bob"] create))%Q.
Proof.
  refine (proj1 (revenue_monotone
                   [Publish Samples.starter; Purchase "tpl-1" "bob"] [] _)).
  intros t Ht. vm_compute in Ht. inversion Ht as [|? ? ? Ht']; subst.
  - vm_compute. discriminate.
  - inversion Ht' as [|? ? ? Ht'']. inversion Ht''.
Defined.
End ledger_exact.
